(** * A BMP reader, editor and writer (src/main.cpp), embedded and verified

    The program reads a 24- or 32-bit BMP file into a [BMPImage], draws a
    diagonal cross on it with Bresenham lines, prints an ASCII preview and
    writes the image back.  This file embeds the classes of src/main.cpp as
    Rocq functions and proves or refutes the statements its specification
    makes about them; its last part proves further properties of the
    reader, the writer, the editor and [main].

    Conventions of the embedding.
    - [BYTE] is [Byte.byte]; [WORD], [DWORD] and [LONG] are [Z] with the
      range of the C++ type.  [LONG] arithmetic that can leave the 32-bit
      range is written with [wrap] (two's complement, what the compiled
      program does); multi-byte reads are little-endian, as the comment at
      the signature test of [read_image] assumes.
    - A computation is an [outcome]: a value, a thrown exception, or
      [Undefined] where C++ gives the program no meaning (a read that the
      stream cannot serve leaves the destination uninitialised; an index
      outside an array).
    - The input stream is its contents and a read position; the output
      stream is the list of bytes written so far.
    - [while (true)] takes fuel; [None] means the fuel ran out. *)

From Stdlib Require Import ZArith Lia Strings.Byte String Ascii.
From stdpp Require Import base tactics option list.

Local Open Scope Z_scope.

(** ** bmp_header.hpp: the integer types *)

Module bmp_types.

Abbreviation BYTE := Byte.byte.

(** Value of a byte, 0..255. *)
Definition byte_val (c : BYTE) : Z := Z.of_N (Byte.to_N c).

(** [LONG = int32_t]: reduction of an integer to the signed 32-bit range. *)
Definition wrap (z : Z) : Z := (z + 2 ^ 31) mod 2 ^ 32 - 2 ^ 31.

(** [std::abs] on a [LONG]; [std_abs (-2^31) = -2^31]. *)
Definition std_abs (z : Z) : Z := wrap (Z.abs z).

(** Conversion of a [LONG] to [size_t] (64 bits). *)
Definition to_size_t (z : Z) : Z := z mod 2 ^ 64.

(** Little-endian value of a sequence of bytes. *)
Fixpoint le_val (bs : list BYTE) : Z :=
  match bs with
  | [] => 0
  | c :: bs' => byte_val c + 256 * le_val bs'
  end.

End bmp_types.
Import bmp_types.

(** ** Outcomes *)

Inductive exn : Type :=
| WrongSignature      (* std::runtime_error("Wrong file signature") *)
| BadArrayNewLength.  (* new T[n] with n < 0 *)

Inductive outcome (A : Type) : Type :=
| Ok (x : A)
| Throw (e : exn)
| Undefined.
Arguments Ok {A} x.
Arguments Throw {A} e.
Arguments Undefined {A}.

Global Instance outcome_bind : MBind outcome := λ A B f m,
  match m with
  | Ok x => f x
  | Throw e => Throw e
  | Undefined => Undefined
  end.

(** [for (i = start; i < start + n; i++) body], threading the state [s]. *)
Fixpoint for_ {St : Type} (n : nat) (i : Z) (body : Z → St → outcome St)
    (s : St) : outcome St :=
  match n with
  | O => Ok s
  | S n' => s' ← body i s; for_ n' (i + 1) body s'
  end.

(** ** Data model *)

Record Pixel : Type := mkPixel { r : BYTE; g : BYTE; b : BYTE; a : BYTE }.

Record BMPHeaders : Type := mkHeaders { hdrs : list BYTE; size : Z }.

Record BMPImageInfo : Type :=
  mkInfo { width : Z; height : Z; bit_count : Z }.

(** [Pixel **]: an array of rows. *)
Abbreviation PixelArray := (list (list Pixel)).

Record BMPImage : Type := mkImage {
  m_array_pixels : PixelArray;
  m_image_info : BMPImageInfo;
  m_hdrs : BMPHeaders
}.

(** [arr[x][y]], read.  A negative index, or one past the allocation, is
    outside the array: undefined.  (A negative [LONG] passed as [size_t]
    becomes at least [2^63], past every allocation, so it is the same case.) *)
Definition load (arr : PixelArray) (x y : Z) : outcome Pixel :=
  if (x <? 0) || (y <? 0) then Undefined
  else match arr !! Z.to_nat x with
       | Some row =>
           match row !! Z.to_nat y with
           | Some p => Ok p
           | None => Undefined
           end
       | None => Undefined
       end.

(** [arr[x][y] = p]. *)
Definition store (arr : PixelArray) (x y : Z) (p : Pixel) : outcome PixelArray :=
  if (x <? 0) || (y <? 0) then Undefined
  else match arr !! Z.to_nat x with
       | Some row =>
           if decide (Z.to_nat y < length row)%nat
           then Ok (<[Z.to_nat x := <[Z.to_nat y := p]> row]> arr)
           else Undefined
       | None => Undefined
       end.

(** [BMPImage::pixel_at(x, y)] is [m_array_pixels[x][y]]. *)
Definition pixel_at (img : BMPImage) (x y : Z) : outcome Pixel :=
  load (m_array_pixels img) x y.

(** [pixel_at(x, y) = p]: assignment through the reference returned. *)
Definition set_pixel_at (img : BMPImage) (x y : Z) (p : Pixel) : outcome BMPImage :=
  arr ← store (m_array_pixels img) x y p;
  Ok (mkImage arr (m_image_info img) (m_hdrs img)).

(** ** std::ifstream *)

Record ifstream : Type := mkStream { contents : list BYTE; gpos : nat }.

Definition open (file : list BYTE) : ifstream := mkStream file 0.

(** [m_file.read(buf, n)]: the next [n] bytes; when the stream has fewer,
    the destination keeps uninitialised bytes. *)
Definition read (n : nat) (s : ifstream) : outcome (list BYTE * ifstream) :=
  let bs := take n (drop (gpos s) (contents s)) in
  if decide (length bs = n)
  then Ok (bs, mkStream (contents s) (gpos s + n))
  else Undefined.

(** [m_file.seekg(off, std::ios::beg)] and [m_file.seekg(off, std::ios::cur)]. *)
Definition seekg_beg (off : Z) (s : ifstream) : ifstream :=
  mkStream (contents s) (Z.to_nat off).

Definition seekg_cur (off : Z) (s : ifstream) : ifstream :=
  mkStream (contents s) (Z.to_nat (Z.of_nat (gpos s) + off)).

(** ** BMPImageReader *)

Module BMPImageReader.

(** [read_bytes<BYTE>()] *)
Definition read_BYTE (s : ifstream) : outcome (BYTE * ifstream) :=
  '(bs, s') ← read 1 s;
  match bs with
  | [c] => Ok (c, s')
  | _ => Undefined
  end.

(** [read_bytes<WORD>()] *)
Definition read_WORD (s : ifstream) : outcome (Z * ifstream) :=
  '(bs, s') ← read 2 s; Ok (le_val bs, s').

(** [read_bytes<DWORD>()] *)
Definition read_DWORD (s : ifstream) : outcome (Z * ifstream) :=
  '(bs, s') ← read 4 s; Ok (le_val bs, s').

(** [read_bytes<LONG>()] *)
Definition read_LONG (s : ifstream) : outcome (Z * ifstream) :=
  '(bs, s') ← read 4 s; Ok (wrap (le_val bs), s').

Definition read_signature := read_WORD.

(** [skip_bytes<N>()] *)
Definition skip_bytes (n : Z) (s : ifstream) : ifstream := seekg_cur n s.

(** [int padding = (4 - (m_width * 3 % 4)) % 4;]  ([%] truncates) *)
Definition padding (m_width : Z) : Z :=
  Z.rem (4 - Z.rem (wrap (m_width * 3)) 4) 4.

(** [new Pixel*[m_height]] and [new Pixel[m_width]] for each row; the
    pixels start with the contents [uninit] of uninitialised storage. *)
Definition new_array (uninit : Pixel) (m_width m_height : Z) : outcome PixelArray :=
  if m_height <? 0 then Throw BadArrayNewLength
  else if (0 <? m_height) && (m_width <? 0) then Throw BadArrayNewLength
  else Ok (replicate (Z.to_nat m_height) (replicate (Z.to_nat m_width) uninit)).

(** The body of the inner loop up to the store: a local [Pixel pixel;]
    whose [a] is assigned only at 32 bits per pixel. *)
Definition read_pixel (uninit : Pixel) (m_bit_count : Z) (s : ifstream)
    : outcome (Pixel * ifstream) :=
  '(pb, s) ← read_BYTE s;
  '(pg, s) ← read_BYTE s;
  '(pr, s) ← read_BYTE s;
  if m_bit_count =? 32
  then '(pa, s) ← read_BYTE s; Ok (mkPixel pr pg pb pa, s)
  else Ok (mkPixel pr pg pb (a uninit), s).

Definition read_array_pixels (uninit : Pixel)
    (m_off_bits m_width m_height m_bit_count : Z) (top_down : bool)
    (s : ifstream) : outcome (PixelArray * ifstream) :=
  let s := seekg_beg m_off_bits s in
  array_pixels ← new_array uninit m_width m_height;
  let padding := padding m_width in
  for_ (Z.to_nat m_height) 0 (λ i '(array_pixels, s),
    let fixed_row := if top_down : bool then m_height - 1 - i else i in
    '(array_pixels, s) ←
      for_ (Z.to_nat m_width) 0 (λ j '(array_pixels, s),
        '(pixel, s) ← read_pixel uninit m_bit_count s;
        array_pixels ← store array_pixels fixed_row j pixel;
        Ok (array_pixels, s)) (array_pixels, s);
    Ok (array_pixels, if 0 <? padding then seekg_cur padding s else s))
    (array_pixels, s).

Definition read_headers (m_off_bits : Z) (s : ifstream)
    : outcome (BMPHeaders * ifstream) :=
  let s := seekg_beg 0 s in
  '(bs, s) ← read (Z.to_nat m_off_bits) s;
  Ok (mkHeaders bs m_off_bits, s).

Definition read_image (uninit : Pixel) (file : list BYTE) : outcome BMPImage :=
  let s := open file in
  '(sig, s) ← read_signature s;
  if negb (sig =? 0x4D42) then Throw WrongSignature else
  let s := skip_bytes 8 s in
  '(m_off_bits, s) ← read_DWORD s;
  let s := skip_bytes 4 s in
  '(m_width, s) ← read_LONG s;
  '(m_height, s) ← read_LONG s;
  let '(top_down, m_height) :=
    if m_height <? 0 then (true, std_abs m_height) else (false, m_height) in
  let s := skip_bytes 2 s in
  '(m_bit_count, s) ← read_WORD s;
  '(array_pixels, s) ←
    read_array_pixels uninit m_off_bits m_width m_height m_bit_count top_down s;
  '(hdrs, s) ← read_headers m_off_bits s;
  Ok (mkImage array_pixels (mkInfo m_width m_height m_bit_count) hdrs).

End BMPImageReader.

(** ** BMPImage: accessors and the ASCII preview *)

Module BMPImage.

Definition width (img : BMPImage) : Z := width (m_image_info img).
Definition height (img : BMPImage) : Z := height (m_image_info img).

Definition endl : ascii := ascii_of_nat 10.

(** [print_image]: the characters sent to [std::cout]. *)
Definition print_image (img : BMPImage) : outcome (list ascii) :=
  for_ (Z.to_nat (height img)) 0 (λ i cout,
    cout ← for_ (Z.to_nat (width img)) 0 (λ j cout,
      p ← load (m_array_pixels img) i j;
      if Byte.eqb (r p) x00 && Byte.eqb (g p) x00 && Byte.eqb (b p) x00
      then Ok (cout ++ ["@"%char])
      else if Byte.eqb (r p) xff && Byte.eqb (g p) xff && Byte.eqb (b p) xff
      then Ok (cout ++ ["*"%char])
      else Ok cout) cout;
    Ok (cout ++ [endl])) [].

End BMPImage.

(** ** BMPImageWriter *)

Module BMPImageWriter.

(** [ofs.write(buf, n)]: the first [n] bytes of the buffer. *)
Definition ofs_write (buf : list BYTE) (n : Z) (ofs : list BYTE) : outcome (list BYTE) :=
  if decide (Z.to_nat n ≤ length buf)%nat
  then Ok (ofs ++ take (Z.to_nat n) buf)
  else Undefined.

(** [ofs.put(c)] *)
Definition ofs_put (c : BYTE) (ofs : list BYTE) : list BYTE := ofs ++ [c].

(** [const int padding = (4 - (m_image.width() * 3) % 4) % 4;] *)
Definition padding (width : Z) : Z :=
  Z.rem (4 - Z.rem (wrap (width * 3)) 4) 4.

(** [write_image]: the bytes of the file written.  The loop counters
    are [size_t], so the [LONG] bounds are converted. *)
Definition write_image (m_image : BMPImage) : outcome (list BYTE) :=
  ofs ← ofs_write (hdrs (m_hdrs m_image)) (size (m_hdrs m_image)) [];
  let padding := padding (BMPImage.width m_image) in
  for_ (Z.to_nat (to_size_t (BMPImage.height m_image))) 0 (λ i ofs,
    ofs ← for_ (Z.to_nat (to_size_t (BMPImage.width m_image))) 0 (λ j ofs,
      p ← pixel_at m_image i j; let ofs := ofs_put (b p) ofs in
      p ← pixel_at m_image i j; let ofs := ofs_put (g p) ofs in
      p ← pixel_at m_image i j; let ofs := ofs_put (r p) ofs in
      if bit_count (m_image_info m_image) =? 32
      then p ← pixel_at m_image i j; Ok (ofs_put (a p) ofs)
      else Ok ofs) ofs;
    for_ (Z.to_nat padding) 0 (λ p ofs, Ok (ofs_put x00 ofs)) ofs) ofs.

End BMPImageWriter.

(** ** BMPImageEditor *)

Module BMPImageEditor.

Definition set_pixel (m_image : BMPImage) (x y : Z) (color : Pixel) : outcome BMPImage :=
  if (x >=? 0) && (x <? BMPImage.width m_image)
     && (y >=? 0) && (y <? BMPImage.height m_image)
  then set_pixel_at m_image x y color
  else Ok m_image.

(** The body of [while (true)] in [draw_line] after the call of
    [set_pixel], on the loop variables [(x0, y0, err)]; [None] is [break]. *)
Definition line_step (dx dy sx sy x1 y1 : Z) (st : Z * Z * Z) : option (Z * Z * Z) :=
  let '(x0, y0, err) := st in
  if (x0 =? x1) && (y0 =? y1) then None else
  let e2 := wrap (2 * err) in
  '(x0, err) ←
    (if e2 >=? dy
     then if x0 =? x1 then None else Some (wrap (x0 + sx), wrap (err + dy))
     else Some (x0, err));
  if e2 <=? dx
  then if y0 =? y1 then None else Some (x0, wrap (y0 + sy), wrap (err + dx))
  else Some (x0, y0, err).

Fixpoint draw_line_loop (fuel : nat) (dx dy sx sy x1 y1 : Z) (clr : Pixel)
    (st : Z * Z * Z) (m_image : BMPImage) : option (outcome BMPImage) :=
  match fuel with
  | O => None
  | S fuel' =>
      match set_pixel m_image (st.1.1) (st.1.2) clr with
      | Ok m_image' =>
          match line_step dx dy sx sy x1 y1 st with
          | None => Some (Ok m_image')
          | Some st' => draw_line_loop fuel' dx dy sx sy x1 y1 clr st' m_image'
          end
      | Throw e => Some (Throw e)
      | Undefined => Some Undefined
      end
  end.

Definition draw_line (fuel : nat) (m_image : BMPImage) (x0 y0 x1 y1 : Z)
    (clr : Pixel) : option (outcome BMPImage) :=
  let dx := std_abs (wrap (x1 - x0)) in
  let dy := wrap (- std_abs (wrap (y1 - y0))) in
  let sx := if x0 <? x1 then 1 else -1 in
  let sy := if y0 <? y1 then 1 else -1 in
  let err := wrap (dx + dy) in
  draw_line_loop fuel dx dy sx sy x1 y1 clr (x0, y0, err) m_image.

Definition draw_diagonal_cross (fuel : nat) (m_image : BMPImage)
    (x1 y1 x2 y2 : Z) (color : Pixel) : option (outcome BMPImage) :=
  match draw_line fuel m_image x1 y1 x2 y2 color with
  | Some (Ok m_image') => draw_line fuel m_image' x1 y2 x2 y1 color
  | other => other
  end.

End BMPImageEditor.

Import BMPImageReader BMPImageWriter BMPImageEditor.

(** ** main *)

Definition prompt_in : list ascii :=
  list_ascii_of_string "Enter input BMP filename: ".
Definition prompt_out : list ascii :=
  list_ascii_of_string "Enter output BMP filename: ".

(** [main], from the bytes of the file named at the first prompt to the
    characters sent to [std::cout] and the bytes written to the file named
    at the second prompt, for a run in which both files open.  An
    exception leaves [main] uncaught. *)
Definition main (fuel : nat) (uninit : Pixel) (in_file : list BYTE)
    : option (outcome (list ascii * list BYTE)) :=
  let cout := prompt_in in
  match read_image uninit in_file with
  | Ok bmp_image =>
      match draw_diagonal_cross fuel bmp_image 40 60 160 120
              (mkPixel x00 x00 x00 x00) with
      | Some (Ok bmp_image) =>
          Some (chars ← BMPImage.print_image bmp_image;
                let cout := cout ++ chars ++ prompt_out in
                out_file ← write_image bmp_image;
                Ok (cout, out_file))
      | Some (Throw e) => Some (Throw e)
      | Some Undefined => Some Undefined
      | None => None
      end
  | Throw e => Some (Throw e)
  | Undefined => Some Undefined
  end.

(** * Vocabulary of the statements *)

(** ** Arrays and files *)

(** An array of [h] rows of [w] pixels each. *)
Definition shaped (h w : Z) (arr : PixelArray) : Prop :=
  0 ≤ h ∧ 0 ≤ w ∧ Z.of_nat (length arr) = h ∧
  ∀ i row, arr !! i = Some row → Z.of_nat (length row) = w.

(** The byte at offset [p] of a file ([x00] past its end). *)
Definition byte_at (f : list BYTE) (p : Z) : BYTE := default x00 (f !! Z.to_nat p).

(** Bytes the reader consumes, and the writer produces, per pixel. *)
Definition bytes_per_pixel (bit_count : Z) : Z := if bit_count =? 32 then 4 else 3.

(** Distance between the starts of two consecutive rows. *)
Definition row_pitch (w bit_count : Z) : Z :=
  w * bytes_per_pixel bit_count + BMPImageReader.padding w.

(** Offset of the pixel in column [j] of the [i]-th row stored in the file. *)
Definition pixel_offset (off w bit_count i j : Z) : Z :=
  off + i * row_pitch w bit_count + j * bytes_per_pixel bit_count.

(** The pixel whose bytes B, G, R (and A at 32 bits) start at offset [p]. *)
Definition pixel_in (uninit : Pixel) (bit_count : Z) (f : list BYTE) (p : Z) : Pixel :=
  mkPixel (byte_at f (p + 2)) (byte_at f (p + 1)) (byte_at f p)
          (if bit_count =? 32 then byte_at f (p + 3) else a uninit).

(** Row of the array that receives the [i]-th row of the file. *)
Definition fixed_row (top_down : bool) (h i : Z) : Z :=
  if top_down then h - 1 - i else i.

(** ** The header fields the reader parses *)

(** Little-endian value of the [n] bytes at offset [p]. *)
Definition field (f : list BYTE) (p n : nat) : Z := le_val (take n (drop p f)).

Definition bfType (f : list BYTE) : Z := field f 0 2.
Definition bfOffBits (f : list BYTE) : Z := field f 10 4.
Definition biWidth (f : list BYTE) : Z := wrap (field f 18 4).
Definition biHeight (f : list BYTE) : Z := wrap (field f 22 4).
Definition biBitCount (f : list BYTE) : Z := field f 28 2.

(** Number of rows, and the order in which the file stores them. *)
Definition rows (f : list BYTE) : Z := Z.abs (biHeight f).
Definition is_top_down (f : list BYTE) : bool := biHeight f <? 0.

(** A 24- or 32-bit BMP file the reader can walk to its end: the signature,
    a header of at least the 30 bytes that carry the parsed fields, a
    width and a height that [LONG] and [std::abs] can represent, and pixel
    rows of [row_pitch] bytes each after the header. *)
Definition valid_bmp (f : list BYTE) : bool :=
  (30 <=? Z.of_nat (length f)) && (bfType f =? 0x4D42)
  && (30 <=? bfOffBits f) && (0 <=? biWidth f) && (- 2 ^ 31 <? biHeight f)
  && ((biBitCount f =? 24) || (biBitCount f =? 32))
  && (bfOffBits f + rows f * row_pitch (biWidth f) (biBitCount f)
      <=? Z.of_nat (length f)).

(** ** Pixels in a file, by stored row and by row of the picture *)

(** The bytes of a pixel in a file: B, G, R, and A at 32 bits per pixel. *)
Definition channels (bit_count : Z) (p : Pixel) : list BYTE :=
  if bit_count =? 32 then [b p; g p; r p; a p] else [b p; g p; r p].

(** A row in a file: its pixels, then the padding. *)
Definition row_bytes (bit_count w : Z) (row : list Pixel) : list BYTE :=
  concat (map (channels bit_count) row)
  ++ replicate (Z.to_nat (BMPImageWriter.padding w)) x00.

(** A file: the header bytes, then the rows of the array in index order. *)
Definition file_bytes (img : BMPImage) : list BYTE :=
  take (Z.to_nat (size (m_hdrs img))) (hdrs (m_hdrs img))
  ++ concat (map (row_bytes (bit_count (m_image_info img)) (BMPImage.width img))
               (m_array_pixels img)).

(** The bytes of one pixel at offset [pos]. *)
Definition pixel_bytes_at (bit_count : Z) (f : list BYTE) (pos : Z) : list BYTE :=
  if bit_count =? 32
  then [byte_at f pos; byte_at f (pos + 1); byte_at f (pos + 2); byte_at f (pos + 3)]
  else [byte_at f pos; byte_at f (pos + 1); byte_at f (pos + 2)].

(** The pixel in column [j] of the [i]-th row stored in the file. *)
Definition file_pixel (f : list BYTE) (i j : Z) : list BYTE :=
  pixel_bytes_at (biBitCount f) f
    (pixel_offset (bfOffBits f) (biWidth f) (biBitCount f) i j).

(** Where the BMP format stores the [v]-th row of the picture counted from
    its top: a negative height field announces rows stored from the top, a
    positive one rows stored from the bottom. *)
Definition stored_row_of_visual (top_down : bool) (h v : Z) : Z :=
  if top_down then v else h - 1 - v.

(** The pixel in column [j] of the [v]-th row of the picture from the top. *)
Definition visual_pixel (f : list BYTE) (v j : Z) : list BYTE :=
  file_pixel f (stored_row_of_visual (is_top_down f) (rows f) v) j.

(** The row of the array in which the specification places the [i]-th
    stored row. *)
Definition claimed_memory_row (top_down : bool) (h i : Z) : Z :=
  if top_down then i else h - 1 - i.

(** ** The preview *)

(** The characters [print_image] sends for one pixel. *)
Definition pixel_chars (p : Pixel) : list ascii :=
  if Byte.eqb (r p) x00 && Byte.eqb (g p) x00 && Byte.eqb (b p) x00
  then ["@"%char]
  else if Byte.eqb (r p) xff && Byte.eqb (g p) xff && Byte.eqb (b p) xff
  then ["*"%char]
  else [].

(** The character the specification gives a pixel: a blank when it is
    neither black nor white. *)
Definition claimed_char (p : Pixel) : ascii :=
  if Byte.eqb (r p) x00 && Byte.eqb (g p) x00 && Byte.eqb (b p) x00
  then "@"%char
  else if Byte.eqb (r p) xff && Byte.eqb (g p) xff && Byte.eqb (b p) xff
  then "*"%char
  else " "%char.

Definition claimed_preview (img : BMPImage) : list ascii :=
  concat (map (λ row, map claimed_char row ++ [BMPImage.endl]) (m_array_pixels img)).

(** ** The editor *)

(** The test of [set_pixel]. *)
Definition in_guard (img : BMPImage) (x y : Z) : Prop :=
  0 ≤ x < BMPImage.width img ∧ 0 ≤ y < BMPImage.height img.

(** [set_pixel] at each point of a list, in order. *)
Fixpoint plot (img : BMPImage) (pts : list (Z * Z)) (clr : Pixel) : outcome BMPImage :=
  match pts with
  | [] => Ok img
  | pt :: pts' => img' ← set_pixel img pt.1 pt.2 clr; plot img' pts' clr
  end.

(** The points [(x0, y0)] that the loop of [draw_line] passes to
    [set_pixel], in order, when it ends within [fuel] iterations. *)
Fixpoint line_points (fuel : nat) (dx dy sx sy x1 y1 : Z) (st : Z * Z * Z)
    : option (list (Z * Z)) :=
  match fuel with
  | O => None
  | S fuel' =>
      match line_step dx dy sx sy x1 y1 st with
      | None => Some [(st.1.1, st.1.2)]
      | Some st' =>
          match line_points fuel' dx dy sx sy x1 y1 st' with
          | Some pts => Some ((st.1.1, st.1.2) :: pts)
          | None => None
          end
      end
  end.

Definition draw_line_points (fuel : nat) (x0 y0 x1 y1 : Z) : option (list (Z * Z)) :=
  let dx := std_abs (wrap (x1 - x0)) in
  let dy := wrap (- std_abs (wrap (y1 - y0))) in
  let sx := if x0 <? x1 then 1 else -1 in
  let sy := if y0 <? y1 then 1 else -1 in
  let err := wrap (dx + dy) in
  line_points fuel dx dy sx sy x1 y1 (x0, y0, err).

(** The values of a [LONG]. *)
Definition is_LONG (z : Z) : Prop := - 2 ^ 31 ≤ z < 2 ^ 31.

(** Number of steps of [s] (1 or -1), with wrap-around, that lead from
    [x] to [t]. *)
Definition steps_left (s t x : Z) : Z := (s * (t - x)) mod 2 ^ 32.

(** Endpoints for which no [LONG] computation of [draw_line] leaves the
    32-bit range: the coordinates are [LONG]s whose differences are below
    [2^29] in absolute value. *)
Definition line_in_range (x0 y0 x1 y1 : Z) : Prop :=
  (- 2 ^ 31 ≤ x0 < 2 ^ 31 ∧ - 2 ^ 31 ≤ y0 < 2 ^ 31) ∧
  (- 2 ^ 31 ≤ x1 < 2 ^ 31 ∧ - 2 ^ 31 ≤ y1 < 2 ^ 31) ∧
  Z.abs (x1 - x0) < 2 ^ 29 ∧ Z.abs (y1 - y0) < 2 ^ 29.

(** The loop variables of [draw_line] from [(x0, y0)] to [(x1, y1)] when
    [rx] steps along x and [ry] steps along y are left before the end
    point. *)
Definition line_inv (x0 y0 x1 y1 : Z) (st : Z * Z * Z) (rx ry : Z) : Prop :=
  0 ≤ rx ≤ Z.abs (x1 - x0) ∧ 0 ≤ ry ≤ Z.abs (y1 - y0) ∧
  st.1.1 = x1 - (if x0 <? x1 then 1 else -1) * rx ∧
  st.1.2 = y1 - (if y0 <? y1 then 1 else -1) * ry ∧
  st.2 = Z.abs (x1 - x0) - Z.abs (y1 - y0)
         + rx * Z.abs (y1 - y0) - ry * Z.abs (x1 - x0) ∧
  - 2 * Z.abs (y1 - y0) ≤ st.2 ≤ 2 * Z.abs (x1 - x0).

(** The public operations of [BMPImageEditor]. *)
Inductive edit : Type :=
| SetPixel (x y : Z) (color : Pixel)
| DrawLine (x0 y0 x1 y1 : Z) (clr : Pixel)
| DrawDiagonalCross (x1 y1 x2 y2 : Z) (color : Pixel).

Definition run_edit (fuel : nat) (op : edit) (img : BMPImage)
    : option (outcome BMPImage) :=
  match op with
  | SetPixel x y color => Some (set_pixel img x y color)
  | DrawLine x0 y0 x1 y1 clr => draw_line fuel img x0 y0 x1 y1 clr
  | DrawDiagonalCross x1 y1 x2 y2 color => draw_diagonal_cross fuel img x1 y1 x2 y2 color
  end.

(** The coordinates an operation passes to [set_pixel]. *)
Definition edit_points (fuel : nat) (op : edit) : option (list (Z * Z)) :=
  match op with
  | SetPixel x y _ => Some [(x, y)]
  | DrawLine x0 y0 x1 y1 _ => draw_line_points fuel x0 y0 x1 y1
  | DrawDiagonalCross x1 y1 x2 y2 _ =>
      pts1 ← draw_line_points fuel x1 y1 x2 y2;
      pts2 ← draw_line_points fuel x1 y2 x2 y1;
      Some (pts1 ++ pts2)
  end.

(** ** Example files and images *)

(** [n] little-endian bytes of [z]. *)
Fixpoint le_bytes (n : nat) (z : Z) : list BYTE :=
  match n with
  | O => []
  | S n' => default x00 (Byte.of_N (Z.to_N (z mod 256))) :: le_bytes n' (z / 256)
  end.

(** A 54-byte header: BITMAPFILEHEADER and BITMAPINFOHEADER. *)
Definition bmp_header (w h bc : Z) : list BYTE :=
  [x42; x4d] ++ le_bytes 4 0 ++ le_bytes 4 0 ++ le_bytes 4 54
  ++ le_bytes 4 40 ++ le_bytes 4 (w mod 2 ^ 32) ++ le_bytes 4 (h mod 2 ^ 32)
  ++ le_bytes 2 1 ++ le_bytes 2 bc ++ replicate 24 x00.

Definition black : Pixel := mkPixel x00 x00 x00 x00.

(** One column, two rows, 24 bits; the rows are stored from the bottom. *)
Definition bottom_up_1x2 : list BYTE :=
  bmp_header 1 2 24 ++ [x01; x02; x03; x00; x04; x05; x06; x00].

(** The same bytes with a negative height: rows stored from the top. *)
Definition top_down_1x2 : list BYTE :=
  bmp_header 1 (-2) 24 ++ [x01; x02; x03; x00; x04; x05; x06; x00].


(** One row of two pixels: width 2, height 1. *)
Definition wide_2x1 : list BYTE :=
  bmp_header 2 1 24 ++ [x01; x02; x03; x04; x05; x06; x00; x00].

(** One black pixel, and the image [read_image] makes of it. *)
Definition black_1x1 : list BYTE := bmp_header 1 1 24 ++ [x00; x00; x00; x00].

Definition black_1x1_decoded : BMPImage :=
  mkImage [[black]] (mkInfo 1 1 24) (mkHeaders (bmp_header 1 1 24) 54).

(** The image of [bottom_up_1x2], and that image with a black pixel at
    row 0, column 0. *)
Definition bottom_up_1x2_decoded : BMPImage :=
  mkImage [[mkPixel x03 x02 x01 x00]; [mkPixel x06 x05 x04 x00]]
          (mkInfo 1 2 24) (mkHeaders (bmp_header 1 2 24) 54).


(** ** Files beyond the valid ones, and files the writer produces *)

(** A file the reader can walk to its end, whatever its bit count and
    the offset of its pixel data: the signature, the 30 bytes that carry
    the parsed fields, a width and a height that [LONG] and [std::abs] can
    represent, and pixel rows of [row_pitch] bytes each from the offset
    on. *)
Definition walkable_bmp (f : list BYTE) : bool :=
  (30 <=? Z.of_nat (length f)) && (bfType f =? 0x4D42)
  && (0 <=? biWidth f) && (- 2 ^ 31 <? biHeight f)
  && (bfOffBits f + rows f * row_pitch (biWidth f) (biBitCount f)
      <=? Z.of_nat (length f)).

(** A file without bytes after its last row and with zero padding. *)
Definition canonical_bmp (f : list BYTE) : Prop :=
  Z.of_nat (length f)
  = bfOffBits f + rows f * row_pitch (biWidth f) (biBitCount f) ∧
  ∀ i k, 0 ≤ i < rows f → 0 ≤ k < BMPImageReader.padding (biWidth f) →
    byte_at f (bfOffBits f + i * row_pitch (biWidth f) (biBitCount f)
               + biWidth f * bytes_per_pixel (biBitCount f) + k) = x00.

(** ** Lines and operations of the editor *)

(** The colour an operation of the editor draws with. *)
Definition edit_colour (op : edit) : Pixel :=
  match op with
  | SetPixel _ _ color => color
  | DrawLine _ _ _ _ clr => clr
  | DrawDiagonalCross _ _ _ _ color => color
  end.

(** One step of a line towards its end point: each coordinate stays or
    moves by the step of the line, and the point changes. *)
Definition line_move (sx sy : Z) (p q : Z * Z) : Prop :=
  (q.1 = p.1 ∨ q.1 = p.1 + sx) ∧ (q.2 = p.2 ∨ q.2 = p.2 + sy) ∧ q ≠ p.

(** Consecutive points of a list are one [line_move] apart. *)
Fixpoint line_chain (sx sy : Z) (pts : list (Z * Z)) : Prop :=
  match pts with
  | p :: pts' =>
      match pts' with
      | q :: _ => line_move sx sy p q ∧ line_chain sx sy pts'
      | [] => True
      end
  | [] => True
  end.

(** The rectangle spanned by two points. *)
Definition in_box (x0 y0 x1 y1 : Z) (p : Z * Z) : Prop :=
  Z.min x0 x1 ≤ p.1 ≤ Z.max x0 x1 ∧ Z.min y0 y1 ≤ p.2 ≤ Z.max y0 y1.


(** ** The preview, as printed *)

(** A pixel that [print_image] shows: black or white. *)
Definition black_or_white (p : Pixel) : Prop :=
  (r p = x00 ∧ g p = x00 ∧ b p = x00) ∨ (r p = xff ∧ g p = xff ∧ b p = xff).

(** The characters [print_image] sends for an array. *)
Definition preview_chars (arr : PixelArray) : list ascii :=
  concat (map (λ row, concat (map pixel_chars row) ++ [BMPImage.endl]) arr).

(** ** Further example files and images *)

(** One column, two rows, and a bit count of 8 in the header. *)
Definition eight_bit_1x2 : list BYTE :=
  bmp_header 1 2 8 ++ [x01; x02; x03; x00; x04; x05; x06; x00].

(** A header that announces a width of -1 and one row. *)
Definition negative_width : list BYTE := bmp_header (-1) 1 24.

(** A header that announces a width of 7 and no row, and nothing else. *)
Definition no_rows : list BYTE := bmp_header 7 0 24.

(** [bottom_up_1x2] with other bytes in the padding and three more bytes
    after the last row. *)
Definition bottom_up_1x2_noisy : list BYTE :=
  bmp_header 1 2 24 ++ [x01; x02; x03; xaa; x04; x05; x06; xbb; x07; x08; x09].

(** Two rows of two pixels, and the image [read_image] makes of them. *)
Definition square_2x2 : list BYTE :=
  bmp_header 2 2 24
  ++ [x01; x02; x03; x04; x05; x06; x00; x00; x07; x08; x09; x0a; x0b; x0c; x00; x00].

Definition square_2x2_decoded : BMPImage :=
  mkImage [[mkPixel x03 x02 x01 x00; mkPixel x06 x05 x04 x00];
           [mkPixel x09 x08 x07 x00; mkPixel x0c x0b x0a x00]]
          (mkInfo 2 2 24) (mkHeaders (bmp_header 2 2 24) 54).

(** The image of [square_2x2] with both diagonals painted black. *)
Definition square_2x2_crossed : BMPImage :=
  mkImage [[black; black]; [black; black]]
    (mkInfo 2 2 24) (mkHeaders (bmp_header 2 2 24) 54).

(** 50 columns, 61 rows, 24 bits, all black. *)
Definition portrait_50x61 : list BYTE :=
  bmp_header 50 61 24 ++ replicate (61 * 152) x00.

(** * Properties *)

(** ** Integers and bytes *)

Lemma wrap_id z : - 2 ^ 31 ≤ z < 2 ^ 31 → wrap z = z.
Proof. intros H. unfold wrap. rewrite Z.mod_small; lia. Qed.

Lemma wrap_range z : - 2 ^ 31 ≤ wrap z < 2 ^ 31.
Proof.
  unfold wrap. pose proof (Z.mod_pos_bound (z + 2 ^ 31) (2 ^ 32)). lia.
Qed.

Lemma byte_val_range c : 0 ≤ byte_val c < 256.
Proof. unfold byte_val. pose proof (Byte.to_N_bounded c). lia. Qed.

Lemma byte_val_inj c d : byte_val c = byte_val d → c = d.
Proof.
  unfold byte_val. intros H. apply N2Z.inj in H.
  pose proof (Byte.of_to_N c) as Hc. pose proof (Byte.of_to_N d) as Hd.
  rewrite H in Hc. congruence.
Qed.

(** ** Outcomes and loops *)

Lemma bind_Ok {A B} (x : A) (f : A → outcome B) : (Ok x ≫= f) = f x.
Proof. reflexivity. Qed.

Lemma bind_Ok_inv {A B} (m : outcome A) (f : A → outcome B) y :
  (m ≫= f) = Ok y → ∃ x, m = Ok x ∧ f x = Ok y.
Proof. destruct m; try discriminate. eauto. Qed.

(** Hoare rule for [for_]: an invariant that every iteration re-establishes
    (and under which every iteration succeeds) holds at the end. *)
Lemma for_inv {St} (P : Z → St → Prop) (body : Z → St → outcome St) n i s :
  P i s →
  (∀ k t, i ≤ k < i + Z.of_nat n → P k t → ∃ t', body k t = Ok t' ∧ P (k + 1) t') →
  ∃ s', for_ n i body s = Ok s' ∧ P (i + Z.of_nat n) s'.
Proof.
  revert i s. induction n as [|n IH]; intros i s Hi Hstep.
  - exists s. split; [done|]. by replace (i + Z.of_nat 0) with i by lia.
  - destruct (Hstep i s) as (t & Hb & Ht); [lia|done|].
    destruct (IH (i + 1) t) as (s' & Hf & Hs'); [done| |].
    + intros k u Hk Hu. apply Hstep; [lia|done].
    + exists s'. cbn [for_]. rewrite Hb, bind_Ok. split; [done|].
      by replace (i + Z.of_nat (S n)) with (i + 1 + Z.of_nat n) by lia.
Qed.

(** ** Pixel arrays *)

Lemma load_in_bounds h w arr x y :
  shaped h w arr → 0 ≤ x < h → 0 ≤ y < w → ∃ p, load arr x y = Ok p.
Proof.
  intros (Hh & Hw & Hlen & Hrows) Hx Hy. unfold load.
  replace ((x <? 0) || (y <? 0)) with false by lia.
  destruct (lookup_lt_is_Some_2 arr (Z.to_nat x)) as [row Hrow]; [lia|].
  rewrite Hrow. specialize (Hrows _ _ Hrow).
  destruct (lookup_lt_is_Some_2 row (Z.to_nat y)) as [p Hp]; [lia|].
  rewrite Hp. eauto.
Qed.

Lemma store_load_eq arr x y p arr' :
  store arr x y p = Ok arr' → load arr' x y = Ok p.
Proof.
  unfold store, load. destruct ((x <? 0) || (y <? 0)); [done|].
  destruct (arr !! Z.to_nat x) as [row|] eqn:Hrow; [|done].
  case_decide as Hy; [|done]. intros [= <-].
  rewrite list_lookup_insert_eq by (by eapply lookup_lt_Some).
  by rewrite list_lookup_insert_eq.
Qed.

Lemma store_load_ne arr x y p arr' x' y' :
  store arr x y p = Ok arr' → x' ≠ x ∨ y' ≠ y → load arr' x' y' = load arr x' y'.
Proof.
  unfold store, load. destruct ((x <? 0) || (y <? 0)) eqn:Hneg; [done|].
  destruct (arr !! Z.to_nat x) as [row|] eqn:Hrow; [|done].
  case_decide as Hy; [|done]. intros [= <-] Hne.
  destruct ((x' <? 0) || (y' <? 0)) eqn:Hneg'; [done|].
  destruct (decide (Z.to_nat x' = Z.to_nat x)) as [Hx|Hx].
  - rewrite Hx, list_lookup_insert_eq, Hrow by (by eapply lookup_lt_Some).
    rewrite list_lookup_insert_ne; [done|]. lia.
  - by rewrite list_lookup_insert_ne.
Qed.

Lemma store_shaped h w arr x y p arr' :
  shaped h w arr → store arr x y p = Ok arr' → shaped h w arr'.
Proof.
  intros (Hh & Hw & Hlen & Hrows). unfold store.
  destruct ((x <? 0) || (y <? 0)); [done|].
  destruct (arr !! Z.to_nat x) as [row|] eqn:Hrow; [|done].
  case_decide as Hy; [|done]. intros [= <-].
  repeat split; try done.
  - by rewrite length_insert.
  - intros i row' Hi. destruct (decide (i = Z.to_nat x)) as [->|Hne].
    + rewrite list_lookup_insert_eq in Hi by (by eapply lookup_lt_Some).
      injection Hi as <-. rewrite length_insert. eauto.
    + rewrite list_lookup_insert_ne in Hi by done. eauto.
Qed.

Lemma store_in_bounds h w arr x y p :
  shaped h w arr → 0 ≤ x < h → 0 ≤ y < w → ∃ arr', store arr x y p = Ok arr'.
Proof.
  intros (Hh & Hw & Hlen & Hrows) Hx Hy. unfold store.
  replace ((x <? 0) || (y <? 0)) with false by lia.
  destruct (lookup_lt_is_Some_2 arr (Z.to_nat x)) as [row Hrow]; [lia|].
  rewrite Hrow. specialize (Hrows _ _ Hrow).
  case_decide; [eauto|lia].
Qed.

Lemma new_array_shaped uninit w h :
  0 ≤ w → 0 ≤ h → ∃ arr, new_array uninit w h = Ok arr ∧ shaped h w arr.
Proof.
  intros Hw Hh. unfold new_array.
  replace (h <? 0) with false by lia.
  replace ((0 <? h) && (w <? 0)) with false by lia.
  eexists. split; [done|]. repeat split; try done.
  - rewrite length_replicate. lia.
  - intros i row Hi. apply lookup_replicate in Hi as [-> _].
    rewrite length_replicate. lia.
Qed.

(** ** Padding *)

Lemma bytes_per_pixel_cases bc :
  bytes_per_pixel bc = 3 ∨ bytes_per_pixel bc = 4.
Proof. unfold bytes_per_pixel. destruct (bc =? 32); auto. Qed.

Lemma wrap_mod4 z : wrap z mod 4 = z mod 4.
Proof.
  unfold wrap. rewrite (Z.mod_eq (z + 2 ^ 31)) by done.
  change (2 ^ 32) with (1073741824 * 4).
  set (k := (z + 2 ^ 31) / (1073741824 * 4)).
  replace (z + 2 ^ 31 - 1073741824 * 4 * k - 2 ^ 31)
    with (z + (- (1073741824 * k)) * 4) by lia.
  by rewrite Z.mod_add.
Qed.

(** [(4 - x % 4) % 4] with C++'s truncating [%] is the distance from [x]
    to the next multiple of 4, whatever the sign of [x]. *)
Lemma rem_pad_mod x : Z.rem (4 - Z.rem x 4) 4 = (4 - x mod 4) mod 4.
Proof.
  pose proof (Z.quot_rem' x 4) as Hq.
  pose proof (Z.div_mod x 4 ltac:(done)) as Hd.
  pose proof (Z.mod_pos_bound x 4 ltac:(done)) as Hp.
  pose proof (Z.rem_bound_abs x 4 ltac:(done)) as Hb.
  assert (Z.rem x 4 = x mod 4 ∨ Z.rem x 4 = x mod 4 - 4) as [->| ->] by lia.
  - by rewrite Z.rem_mod_nonneg by lia.
  - rewrite Z.rem_mod_nonneg by lia.
    replace (4 - (x mod 4 - 4)) with (4 - x mod 4 + 1 * 4) by lia.
    by rewrite Z.mod_add.
Qed.

Lemma padding_formula w :
  BMPImageReader.padding w = (4 - (w * 3) mod 4) mod 4.
Proof.
  unfold BMPImageReader.padding. by rewrite rem_pad_mod, wrap_mod4.
Qed.

Lemma padding_range w : 0 ≤ BMPImageReader.padding w < 4.
Proof. rewrite padding_formula. by apply Z.mod_pos_bound. Qed.

(** ** The input stream *)

Lemma read_ok n s :
  (gpos s + n ≤ length (contents s))%nat →
  read n s = Ok (take n (drop (gpos s) (contents s)),
                 mkStream (contents s) (gpos s + n)).
Proof.
  intros H. unfold read. case_decide as Hl; [done|].
  rewrite length_take, length_drop in Hl. lia.
Qed.

Lemma read_BYTE_ok s :
  (gpos s < length (contents s))%nat →
  read_BYTE s = Ok (byte_at (contents s) (Z.of_nat (gpos s)),
                    mkStream (contents s) (gpos s + 1)).
Proof.
  intros H. unfold read_BYTE. rewrite read_ok by lia. rewrite bind_Ok.
  destruct (lookup_lt_is_Some_2 (contents s) (gpos s) H) as [c Hc].
  unfold byte_at. rewrite Nat2Z.id, Hc. cbn.
  by rewrite (drop_S _ _ _ Hc).
Qed.

Lemma read_pixel_ok uninit bc s :
  Z.of_nat (gpos s) + bytes_per_pixel bc ≤ Z.of_nat (length (contents s)) →
  read_pixel uninit bc s =
    Ok (pixel_in uninit bc (contents s) (Z.of_nat (gpos s)),
        mkStream (contents s) (gpos s + Z.to_nat (bytes_per_pixel bc))).
Proof.
  intros H. unfold read_pixel, pixel_in, bytes_per_pixel in *.
  rewrite read_BYTE_ok by (destruct (bc =? 32); lia). rewrite bind_Ok. cbn [gpos contents].
  rewrite read_BYTE_ok by (cbn; destruct (bc =? 32); lia). rewrite bind_Ok. cbn [gpos contents].
  rewrite read_BYTE_ok by (cbn; destruct (bc =? 32); lia). rewrite bind_Ok. cbn [gpos contents].
  destruct (bc =? 32).
  - rewrite read_BYTE_ok by (cbn; lia). rewrite bind_Ok. cbn [gpos contents].
    do 3 f_equal; [f_equal; f_equal; lia ..|lia].
  - do 3 f_equal; [f_equal; f_equal; lia ..|lia].
Qed.

(** ** The pixel loops of the reader *)

Section read_array.
Variables (uninit : Pixel) (f : list BYTE).
Variables (off w h bc : Z) (top_down : bool).
Hypothesis Hoff : 0 ≤ off.
Hypothesis Hw : 0 ≤ w.
Hypothesis Hh : 0 ≤ h.
Hypothesis Hlen : off + h * row_pitch w bc ≤ Z.of_nat (length f).

Let bpp := bytes_per_pixel bc.
Let pitch := row_pitch w bc.

Lemma row_pitch_bounds : w * bpp ≤ pitch < w * bpp + 4.
Proof. subst bpp pitch. unfold row_pitch. pose proof (padding_range w). lia. Qed.

Lemma pixel_offset_fits i j :
  0 ≤ i < h → 0 ≤ j < w →
  0 ≤ pixel_offset off w bc i j ∧
  pixel_offset off w bc i j + bpp ≤ off + i * pitch + w * bpp ∧
  off + (i + 1) * pitch ≤ Z.of_nat (length f).
Proof.
  intros Hi Hj. pose proof row_pitch_bounds as Hp.
  unfold pixel_offset. fold bpp pitch.
  assert (0 < bpp) by (subst bpp; destruct (bytes_per_pixel_cases bc); lia).
  assert (0 ≤ pitch) by nia.
  fold pitch in Hlen. nia.
Qed.

Lemma fixed_row_range i : 0 ≤ i < h → 0 ≤ fixed_row top_down h i < h.
Proof. unfold fixed_row. destruct top_down; lia. Qed.

Lemma fixed_row_inj i i' : fixed_row top_down h i = fixed_row top_down h i' → i = i'.
Proof. unfold fixed_row. destruct top_down; lia. Qed.

(** Where every pixel of the array comes from: row [i] of the file lands
    in row [fixed_row top_down h i]. *)
Lemma read_array_pixels_ok s :
  contents s = f →
  ∃ arr s',
    read_array_pixels uninit off w h bc top_down s = Ok (arr, s') ∧
    contents s' = f ∧ shaped h w arr ∧
    ∀ i j, 0 ≤ i < h → 0 ≤ j < w →
      load arr (fixed_row top_down h i) j
      = Ok (pixel_in uninit bc f (pixel_offset off w bc i j)).
Proof.
  intros Hs. unfold read_array_pixels.
  destruct (new_array_shaped uninit w h Hw Hh) as (arr0 & -> & Hsh0).
  rewrite bind_Ok.
  pose (Q := λ (i : Z) (t : PixelArray * ifstream),
    contents t.2 = f ∧ Z.of_nat (gpos t.2) = off + i * pitch ∧ shaped h w t.1 ∧
    ∀ i' j, 0 ≤ i' < i → 0 ≤ j < w →
      load t.1 (fixed_row top_down h i') j
      = Ok (pixel_in uninit bc f (pixel_offset off w bc i' j))).
  lazymatch goal with
  | |- context [for_ ?n ?i ?body ?t] =>
      destruct (for_inv Q body n i t) as ([arr s'] & Hrun & Hc & _ & Hsh & Hpix);
      [| |rewrite Hrun]
  end.
  - repeat split; cbn; try done; try lia; apply Hsh0.
  - intros i [arr s1] Hi (Hc & Hp & Hsh & Hpix). cbn in Hc, Hp, Hsh, Hpix.
    pose (P := λ (j : Z) (t : PixelArray * ifstream),
      contents t.2 = f ∧ Z.of_nat (gpos t.2) = off + i * pitch + j * bpp ∧
      shaped h w t.1 ∧
      (∀ j', 0 ≤ j' < j →
         load t.1 (fixed_row top_down h i) j'
         = Ok (pixel_in uninit bc f (pixel_offset off w bc i j'))) ∧
      (∀ x y, x ≠ fixed_row top_down h i → load t.1 x y = load arr x y)).
    lazymatch goal with
    | |- context [for_ ?n ?i ?body ?t] =>
        destruct (for_inv P body n i t)
          as ([arr2 s2] & Hrun & Hc2 & Hp2 & Hsh2 & Hrow & Hoth);
        [| |rewrite Hrun]
    end.
    + repeat split; cbn; try done; try lia; apply Hsh.
    + intros j [arr1 s3] Hj (Hc3 & Hp3 & Hsh3 & Hrow & Hoth).
      cbn in Hc3, Hp3, Hsh3, Hrow, Hoth.
      change (if top_down then h - 1 - i else i) with (fixed_row top_down h i).
      destruct (pixel_offset_fits i j) as (Hf1 & Hf2 & Hf3); [lia..|].
      unfold pixel_offset in Hf1, Hf2. fold bpp pitch in Hf1, Hf2.
      pose proof row_pitch_bounds as Hpb.
      rewrite read_pixel_ok by (rewrite Hc3; fold bpp; nia).
      rewrite bind_Ok.
      destruct (store_in_bounds h w arr1 (fixed_row top_down h i) j
                  (pixel_in uninit bc (contents s3) (Z.of_nat (gpos s3))) Hsh3)
        as [arr' Hst]; [apply fixed_row_range; lia|lia|].
      rewrite Hst, bind_Ok. eexists. split; [done|].
      assert (0 < bpp) by (subst bpp; destruct (bytes_per_pixel_cases bc); lia).
      repeat split; cbn.
      * done.
      * fold bpp. lia.
      * eapply store_shaped in Hst as (_ & _ & ? & ?); done.
      * eapply store_shaped in Hst as (_ & _ & ? & ?); done.
      * eapply store_shaped in Hst as (_ & _ & ? & ?); done.
      * eapply store_shaped in Hst as (_ & _ & ? & ?); done.
      * intros j' Hj'. destruct (decide (j' = j)) as [->|Hne].
        -- rewrite (store_load_eq _ _ _ _ _ Hst), Hc3, Hp3.
           unfold pixel_offset. by fold bpp pitch.
        -- rewrite (store_load_ne _ _ _ _ _ _ _ Hst) by auto.
           apply Hrow. lia.
      * intros x y Hx. rewrite (store_load_ne _ _ _ _ _ _ _ Hst) by auto. auto.
    + rewrite bind_Ok. eexists. split; [done|].
      cbn in Hc2, Hp2, Hsh2, Hrow, Hoth.
      pose proof (padding_range w) as Hpad.
      repeat split; cbn; try apply Hsh2.
      * by destruct (0 <? BMPImageReader.padding w).
      * subst pitch bpp. unfold row_pitch in *. rewrite Z2Nat.id in Hp2 by lia.
        destruct (Z.ltb_spec 0 (BMPImageReader.padding w)); cbn; lia.
      * intros i' j Hi' Hj. destruct (decide (i' = i)) as [->|Hne].
        -- apply Hrow. lia.
        -- rewrite Hoth by (intros E; apply fixed_row_inj in E; done).
           apply Hpix; lia.
  - cbn in Hc, Hsh, Hpix. exists arr, s'. repeat split; try done; try apply Hsh.
    intros i j Hi Hj. apply Hpix; lia.
Qed.

End read_array.

(** ** The header fields the reader parses *)

Lemma valid_bmp_unfold f :
  valid_bmp f = true →
  30 ≤ Z.of_nat (length f) ∧ bfType f = 0x4D42 ∧ 30 ≤ bfOffBits f ∧
  0 ≤ biWidth f ∧ - 2 ^ 31 < biHeight f ∧
  (biBitCount f = 24 ∨ biBitCount f = 32) ∧
  bfOffBits f + rows f * row_pitch (biWidth f) (biBitCount f) ≤ Z.of_nat (length f).
Proof. unfold valid_bmp. intros H. repeat split; lia. Qed.

(** What [read_image] does once the 30 header bytes are there. *)
Lemma read_image_header uninit f :
  30 ≤ Z.of_nat (length f) →
  read_image uninit f =
    if negb (bfType f =? 0x4D42) then Throw WrongSignature else
    let '(top_down, m_height) :=
      if biHeight f <? 0 then (true, std_abs (biHeight f)) else (false, biHeight f) in
    '(array_pixels, s) ←
      read_array_pixels uninit (bfOffBits f) (biWidth f) m_height (biBitCount f)
        top_down (mkStream f 30);
    '(hdrs, s) ← read_headers (bfOffBits f) s;
    Ok (mkImage array_pixels (mkInfo (biWidth f) m_height (biBitCount f)) hdrs).
Proof.
  intros Hlen. unfold read_image, read_signature, read_WORD, read_DWORD, read_LONG.
  unfold open, skip_bytes, seekg_cur.
  rewrite read_ok by (cbn [gpos contents]; lia). rewrite !bind_Ok. cbv beta iota.
  cbn [gpos contents Nat.add]. fold (field f 0 2). fold (bfType f).
  destruct (negb (bfType f =? 19778)); [done|].
  change (Z.to_nat (Z.of_nat 2 + 8)) with 10%nat.
  rewrite read_ok by (cbn [gpos contents]; lia). rewrite !bind_Ok. cbv beta iota.
  cbn [gpos contents Nat.add]. fold (field f 10 4). fold (bfOffBits f).
  change (Z.to_nat (Z.of_nat 14 + 4)) with 18%nat.
  rewrite read_ok by (cbn [gpos contents]; lia). rewrite !bind_Ok. cbv beta iota.
  cbn [gpos contents Nat.add]. fold (field f 18 4). fold (biWidth f).
  rewrite read_ok by (cbn [gpos contents]; lia). rewrite !bind_Ok. cbv beta iota.
  cbn [gpos contents Nat.add]. fold (field f 22 4). fold (biHeight f).
  change (Z.to_nat (Z.of_nat 26 + 2)) with 28%nat.
  rewrite read_ok by (cbn [gpos contents]; lia).
  cbn [gpos contents Nat.add]. fold (field f 28 2). fold (biBitCount f).
  by destruct (biHeight f <? 0).
Qed.

Lemma read_headers_ok off s :
  0 ≤ off ≤ Z.of_nat (length (contents s)) →
  read_headers off s =
    Ok (mkHeaders (take (Z.to_nat off) (contents s)) off,
        mkStream (contents s) (Z.to_nat off)).
Proof.
  intros H. unfold read_headers, seekg_beg.
  rewrite read_ok by (cbn [gpos contents]; lia). by rewrite bind_Ok.
Qed.

(** The decoder on a valid file: the image it returns, and where each of
    its pixels comes from. *)
Lemma read_image_ok uninit f :
  valid_bmp f = true →
  ∃ arr,
    read_image uninit f =
      Ok (mkImage arr (mkInfo (biWidth f) (rows f) (biBitCount f))
            (mkHeaders (take (Z.to_nat (bfOffBits f)) f) (bfOffBits f))) ∧
    shaped (rows f) (biWidth f) arr ∧
    ∀ i j, 0 ≤ i < rows f → 0 ≤ j < biWidth f →
      load arr (fixed_row (is_top_down f) (rows f) i) j
      = Ok (pixel_in uninit (biBitCount f) f
              (pixel_offset (bfOffBits f) (biWidth f) (biBitCount f) i j)).
Proof.
  intros Hv. apply valid_bmp_unfold in Hv as (Hlen & Hsig & Hoff & Hw & Hh & Hbc & Hfit).
  rewrite read_image_header by done. rewrite Hsig. cbn [negb Z.eqb Pos.eqb].
  pose proof (wrap_range (field f 22 4)) as Hr. fold (biHeight f) in Hr.
  assert ((if biHeight f <? 0 then (true, std_abs (biHeight f)) else (false, biHeight f))
          = (is_top_down f, rows f)) as ->.
  { unfold is_top_down, rows, std_abs.
    destruct (Z.ltb_spec (biHeight f) 0).
    - by rewrite wrap_id by lia.
    - by rewrite Z.abs_eq by lia. }
  assert (0 ≤ row_pitch (biWidth f) (biBitCount f)) as Hpitch.
  { unfold row_pitch. pose proof (padding_range (biWidth f)).
    destruct (bytes_per_pixel_cases (biBitCount f)); nia. }
  destruct (read_array_pixels_ok uninit f (bfOffBits f) (biWidth f) (rows f)
              (biBitCount f) (is_top_down f) ltac:(lia) Hw ltac:(unfold rows; lia) Hfit
              (mkStream f 30) eq_refl) as (arr & s' & -> & Hc & Hsh & Hpix).
  rewrite bind_Ok. rewrite read_headers_ok by (rewrite Hc; unfold rows in *; nia).
  rewrite bind_Ok, Hc. eauto.
Qed.

(** ** The writer *)

Lemma load_lookup arr x y row p :
  0 ≤ x → 0 ≤ y → arr !! Z.to_nat x = Some row → row !! Z.to_nat y = Some p →
  load arr x y = Ok p.
Proof.
  intros Hx Hy Hrow Hp. unfold load.
  replace ((x <? 0) || (y <? 0)) with false by lia. by rewrite Hrow, Hp.
Qed.

Lemma write_image_ok img :
  shaped (BMPImage.height img) (BMPImage.width img) (m_array_pixels img) →
  BMPImage.height img < 2 ^ 64 → BMPImage.width img < 2 ^ 64 →
  (Z.to_nat (size (m_hdrs img)) ≤ length (hdrs (m_hdrs img)))%nat →
  write_image img = Ok (file_bytes img).
Proof.
  destruct img as [arr [w h bc] [hd sz]].
  unfold BMPImage.height, BMPImage.width, write_image, file_bytes, pixel_at, ofs_write.
  cbn [m_array_pixels m_image_info m_hdrs hdrs size width height bit_count
       BMPImage.width BMPImage.height].
  intros (Hh & Hw & Hlen & Hrows) Hh64 Hw64 Hsz.
  case_decide; [|lia]. rewrite bind_Ok. cbn [app].
  unfold to_size_t. rewrite !Z.mod_small by lia.
  set (hdr := take (Z.to_nat sz) hd).
  pose (Q := λ (i : Z) (ofs : list BYTE),
    ofs = hdr ++ concat (map (row_bytes bc w) (take (Z.to_nat i) arr))).
  lazymatch goal with
  | |- for_ ?n ?i ?body ?t = _ =>
      destruct (for_inv Q body n i t) as (ofs & -> & Hofs)
  end.
  - unfold Q. change (Z.to_nat 0) with 0%nat. by rewrite take_0, app_nil_r.
  - intros i ofs Hi ->.
    destruct (lookup_lt_is_Some_2 arr (Z.to_nat i)) as [row Hrow]; [lia|].
    specialize (Hrows _ _ Hrow).
    pose (P := λ (j : Z) (ofs : list BYTE),
      ofs = (hdr ++ concat (map (row_bytes bc w) (take (Z.to_nat i) arr)))
            ++ concat (map (channels bc) (take (Z.to_nat j) row))).
    lazymatch goal with
    | |- context [for_ ?n ?i ?body ?t ≫= _] =>
        destruct (for_inv P body n i t) as (ofs1 & -> & Hofs1)
    end.
    + unfold P. change (Z.to_nat 0) with 0%nat. by rewrite take_0, app_nil_r.
    + intros j ofs1 Hj ->.
      destruct (lookup_lt_is_Some_2 row (Z.to_nat j)) as [p Hp]; [lia|].
      rewrite (load_lookup arr i j row p) by (done || lia).
      rewrite !bind_Ok. unfold P.
      replace (Z.to_nat (j + 1)) with (S (Z.to_nat j)) by lia.
      rewrite (take_S_r _ _ _ Hp), map_app, concat_app. cbn [map concat].
      unfold ofs_put, channels. rewrite app_nil_r.
      destruct (bc =? 32); (eexists; split; [done|]);
        rewrite <- !(assoc_L (++)); done.
    + rewrite bind_Ok. unfold P in Hofs1.
      replace (Z.to_nat (0 + Z.of_nat (Z.to_nat w))) with (length row) in Hofs1 by lia.
      rewrite firstn_all in Hofs1. subst ofs1.
      pose (R := λ (k : Z) (ofs : list BYTE),
        ofs = ((hdr ++ concat (map (row_bytes bc w) (take (Z.to_nat i) arr)))
               ++ concat (map (channels bc) row))
              ++ replicate (Z.to_nat k) x00).
      lazymatch goal with
      | |- context [for_ ?n ?i ?body ?t] =>
          destruct (for_inv R body n i t) as (ofs2 & -> & Hofs2)
      end.
      * unfold R. change (Z.to_nat 0) with 0%nat. cbn [replicate]. by rewrite app_nil_r.
      * intros k ofs2 Hk ->. eexists. split; [done|]. unfold R, ofs_put.
        replace (Z.to_nat (k + 1)) with (Z.to_nat k + 1)%nat by lia.
        rewrite replicate_add. cbn [replicate]. by rewrite (assoc_L (++)).
      * eexists. split; [done|]. unfold Q, R in *. subst ofs2.
        replace (Z.to_nat (i + 1)) with (S (Z.to_nat i)) by lia.
        rewrite (take_S_r _ _ _ Hrow), map_app, concat_app. cbn [map concat].
        rewrite app_nil_r. unfold row_bytes at 3.
        rewrite Z.add_0_l, Nat2Z.id, <- !(assoc_L (++)). done.
  - unfold Q in Hofs.
    replace (Z.to_nat (0 + Z.of_nat (Z.to_nat h))) with (length arr) in Hofs by lia.
    rewrite firstn_all in Hofs. by subst ofs.
Qed.

(** ** Finding a pixel in the bytes of a written file *)

Lemma drop_concat_chunk {A} (ls : list (list A)) (n i : nat) x :
  (∀ k l, ls !! k = Some l → length l = n) → ls !! i = Some x →
  drop (i * n) (concat ls) = x ++ concat (drop (S i) ls).
Proof.
  revert i. induction ls as [|l ls IH]; intros i Hn Hi; [done|].
  destruct i as [|i].
  - injection Hi as ->. done.
  - cbn [Nat.mul concat]. rewrite <- (Hn 0%nat l eq_refl) at 1.
    rewrite drop_app_add. apply IH; [|done].
    intros k l' Hk. by apply (Hn (S k)).
Qed.

Lemma length_concat_chunk {A} (ls : list (list A)) (n : nat) :
  (∀ k l, ls !! k = Some l → length l = n) →
  length (concat ls) = (length ls * n)%nat.
Proof.
  induction ls as [|l ls IH]; intros Hn; [done|].
  cbn [concat length Nat.mul]. rewrite length_app, (Hn 0%nat l eq_refl), IH; [done|].
  intros k l' Hk. by apply (Hn (S k)).
Qed.

Lemma length_channels bc p : Z.of_nat (length (channels bc p)) = bytes_per_pixel bc.
Proof. unfold channels, bytes_per_pixel. by destruct (bc =? 32). Qed.

Lemma length_pixels_bytes bc (row : list Pixel) :
  length (concat (map (channels bc) row))
  = (length row * Z.to_nat (bytes_per_pixel bc))%nat.
Proof.
  rewrite (length_concat_chunk _ (Z.to_nat (bytes_per_pixel bc))).
  - by rewrite length_map.
  - intros k l Hk. rewrite list_lookup_fmap in Hk.
    destruct (row !! k) as [p|]; [|done]. injection Hk as <-.
    pose proof (length_channels bc p). lia.
Qed.

Lemma length_row_bytes bc w (row : list Pixel) :
  0 ≤ w → Z.of_nat (length row) = w →
  length (row_bytes bc w row) = Z.to_nat (row_pitch w bc).
Proof.
  intros Hw Hrow. unfold row_bytes, row_pitch.
  rewrite length_app, length_pixels_bytes, length_replicate.
  pose proof (padding_range w). unfold BMPImageWriter.padding.
  fold (BMPImageReader.padding w).
  destruct (bytes_per_pixel_cases bc) as [-> | ->]; lia.
Qed.

(** The pixel read at an offset where the bytes of [p] start. *)
Lemma pixel_in_channels uninit bc f pos p rest :
  0 ≤ pos → drop (Z.to_nat pos) f = channels bc p ++ rest →
  pixel_in uninit bc f pos
  = mkPixel (r p) (g p) (b p) (if bc =? 32 then a p else a uninit).
Proof.
  intros Hpos Hd.
  assert (∀ k, (k < length (channels bc p))%nat →
            f !! (Z.to_nat pos + k)%nat = channels bc p !! k) as Hk.
  { intros k Hlt. by rewrite <- lookup_drop, Hd, lookup_app_l. }
  unfold pixel_in, byte_at.
  replace (Z.to_nat (pos + 2)) with (Z.to_nat pos + 2)%nat by lia.
  replace (Z.to_nat (pos + 1)) with (Z.to_nat pos + 1)%nat by lia.
  replace (Z.to_nat (pos + 3)) with (Z.to_nat pos + 3)%nat by lia.
  replace (Z.to_nat pos) with (Z.to_nat pos + 0)%nat at 3 by lia.
  unfold channels in Hk. destruct (bc =? 32).
  - by rewrite !Hk by (cbn; lia).
  - by rewrite !Hk by (cbn; lia).
Qed.

Section written_file.
Variable img : BMPImage.
Let arr := m_array_pixels img.
Let w := BMPImage.width img.
Let h := BMPImage.height img.
Let bc := bit_count (m_image_info img).
Let off := size (m_hdrs img).
Hypothesis Hshape : shaped h w arr.
Hypothesis Hoff : 0 ≤ off.
Hypothesis Hhdrs : (Z.to_nat off ≤ length (hdrs (m_hdrs img)))%nat.

Lemma file_bytes_rows k row :
  map (row_bytes bc w) arr !! k = Some row →
  length row = Z.to_nat (row_pitch w bc).
Proof.
  destruct Hshape as (Hh & Hw & Hlen & Hrows).
  rewrite list_lookup_fmap. intros Hk.
  destruct (arr !! k) as [row'|] eqn:E; [|done]. injection Hk as <-.
  apply length_row_bytes; eauto.
Qed.

Lemma length_file_bytes :
  Z.of_nat (length (file_bytes img)) = off + h * row_pitch w bc.
Proof.
  destruct Hshape as (Hh & Hw & Hlen & Hrows).
  unfold file_bytes. fold arr w bc off.
  rewrite length_app, length_take, (length_concat_chunk _ _ file_bytes_rows).
  rewrite length_map.
  assert (0 ≤ row_pitch w bc).
  { unfold row_pitch. pose proof (padding_range w).
    destruct (bytes_per_pixel_cases bc); nia. }
  rewrite Nat2Z.inj_add, Nat2Z.inj_mul, Z2Nat.id by done. lia.
Qed.

Lemma take_file_bytes :
  take (Z.to_nat off) (file_bytes img) = take (Z.to_nat off) (hdrs (m_hdrs img)).
Proof.
  unfold file_bytes. fold off. rewrite take_app_length'; [done|].
  rewrite length_take. lia.
Qed.

(** The pixel found in the written file where the reader looks for
    column [j] of the [i]-th stored row is the pixel [arr[i][j]]. *)
Lemma pixel_in_file_bytes uninit i j p :
  0 ≤ i < h → 0 ≤ j < w → load arr i j = Ok p →
  pixel_in uninit bc (file_bytes img) (pixel_offset off w bc i j)
  = mkPixel (r p) (g p) (b p) (if bc =? 32 then a p else a uninit).
Proof.
  intros Hi Hj Hload.
  destruct Hshape as (Hh & Hw & Hlen & Hrows).
  destruct (lookup_lt_is_Some_2 arr (Z.to_nat i)) as [row Hrow]; [lia|].
  pose proof (Hrows _ _ Hrow) as Hrl.
  destruct (lookup_lt_is_Some_2 row (Z.to_nat j)) as [p' Hp]; [lia|].
  rewrite (load_lookup arr i j row p') in Hload by (done || lia).
  injection Hload as ->.
  assert (0 < bytes_per_pixel bc) as Hbpp
    by (destruct (bytes_per_pixel_cases bc); lia).
  assert (0 ≤ row_pitch w bc) as Hpitch.
  { unfold row_pitch. pose proof (padding_range w). nia. }
  assert (0 ≤ pixel_offset off w bc i j) as Hpos by (unfold pixel_offset; nia).
  eapply pixel_in_channels; [done|].
  unfold pixel_offset, file_bytes. fold arr w bc off.
  replace (Z.to_nat (off + i * row_pitch w bc + j * bytes_per_pixel bc))
    with (length (take (Z.to_nat off) (hdrs (m_hdrs img)))
          + (Z.to_nat i * Z.to_nat (row_pitch w bc)
             + Z.to_nat j * Z.to_nat (bytes_per_pixel bc)))%nat
    by (rewrite length_take; nia).
  rewrite drop_app_add, <- drop_drop.
  rewrite (drop_concat_chunk _ _ _ (row_bytes bc w row) file_bytes_rows)
    by (by rewrite list_lookup_fmap, Hrow).
  unfold row_bytes at 1. rewrite <- (assoc_L (++)).
  rewrite drop_app_le by (rewrite length_pixels_bytes; nia).
  rewrite (drop_concat_chunk _ _ _ (channels bc p)).
  - rewrite <- (assoc_L (++)). done.
  - intros k l Hk. rewrite list_lookup_fmap in Hk.
    destruct (row !! k) as [q|]; [|done]. injection Hk as <-.
    pose proof (length_channels bc q). lia.
  - by rewrite list_lookup_fmap, Hp.
Qed.

End written_file.

(** ** Pixels and their bytes *)

Lemma channels_pixel_in uninit bc f pos :
  channels bc (pixel_in uninit bc f pos) = pixel_bytes_at bc f pos.
Proof. unfold channels, pixel_in, pixel_bytes_at. by destruct (bc =? 32). Qed.

Lemma channels_reread uninit bc p :
  channels bc (mkPixel (r p) (g p) (b p) (if bc =? 32 then a p else a uninit))
  = channels bc p.
Proof. unfold channels. by destruct (bc =? 32). Qed.

(** ** A written file read again *)

Lemma field_prefix (f f' : list BYTE) (k p n : nat) :
  take k f' = take k f → (p + n ≤ k)%nat → field f' p n = field f p n.
Proof.
  intros Hk Hle. unfold field. rewrite !take_drop_commute.
  replace (p + n)%nat with (min (p + n) k) by lia.
  by rewrite <- !take_take, Hk.
Qed.

(** The image decoded from a valid file is written as [file_bytes], which
    is a valid file with the same header. *)
Lemma decode_encode uninit f :
  valid_bmp f = true →
  ∃ img,
    read_image uninit f = Ok img ∧
    m_image_info img = mkInfo (biWidth f) (rows f) (biBitCount f) ∧
    m_hdrs img = mkHeaders (take (Z.to_nat (bfOffBits f)) f) (bfOffBits f) ∧
    shaped (rows f) (biWidth f) (m_array_pixels img) ∧
    (∀ i j, 0 ≤ i < rows f → 0 ≤ j < biWidth f →
       ∃ p, load (m_array_pixels img) (fixed_row (is_top_down f) (rows f) i) j = Ok p
            ∧ channels (biBitCount f) p = file_pixel f i j) ∧
    write_image img = Ok (file_bytes img) ∧
    take (Z.to_nat (bfOffBits f)) (file_bytes img) = take (Z.to_nat (bfOffBits f)) f ∧
    valid_bmp (file_bytes img) = true ∧
    bfOffBits (file_bytes img) = bfOffBits f ∧
    biWidth (file_bytes img) = biWidth f ∧
    biHeight (file_bytes img) = biHeight f ∧
    biBitCount (file_bytes img) = biBitCount f ∧
    (∀ i j p, 0 ≤ i < rows f → 0 ≤ j < biWidth f →
       load (m_array_pixels img) i j = Ok p →
       file_pixel (file_bytes img) i j = channels (biBitCount f) p).
Proof.
  intros Hv. destruct (read_image_ok uninit f Hv) as (arr & Hrd & Hsh & Hpix).
  apply valid_bmp_unfold in Hv as (Hlen & Hsig & Hoff & Hw & Hh & Hbc & Hfit).
  pose proof (wrap_range (field f 22 4)) as Hhr. fold (biHeight f) in Hhr.
  pose proof (wrap_range (field f 18 4)) as Hwr. fold (biWidth f) in Hwr.
  assert (0 ≤ row_pitch (biWidth f) (biBitCount f)) as Hpitch.
  { unfold row_pitch. pose proof (padding_range (biWidth f)).
    destruct (bytes_per_pixel_cases (biBitCount f)); nia. }
  set (img := mkImage arr (mkInfo (biWidth f) (rows f) (biBitCount f))
                (mkHeaders (take (Z.to_nat (bfOffBits f)) f) (bfOffBits f))) in *.
  assert ((Z.to_nat (bfOffBits f) ≤ length (take (Z.to_nat (bfOffBits f)) f))%nat)
    as Hhd by (rewrite length_take; unfold rows in *; nia).
  assert (take (Z.to_nat (bfOffBits f)) (file_bytes img)
          = take (Z.to_nat (bfOffBits f)) f) as Htake.
  { pose proof (take_file_bytes img Hhd) as Ht. cbn in Ht.
    rewrite Ht, take_take. f_equal. lia. }
  assert (∀ p n, (p + n ≤ 30)%nat → field (file_bytes img) p n = field f p n) as Hfld.
  { intros p n Hpn. apply (field_prefix _ _ (Z.to_nat (bfOffBits f))); [done|lia]. }
  assert (bfOffBits (file_bytes img) = bfOffBits f) as Eoff by (apply Hfld; lia).
  assert (biWidth (file_bytes img) = biWidth f) as Ew
    by (unfold biWidth; rewrite Hfld; [done|lia]).
  assert (biHeight (file_bytes img) = biHeight f) as Eh
    by (unfold biHeight; rewrite Hfld; [done|lia]).
  assert (biBitCount (file_bytes img) = biBitCount f) as Ebc by (apply Hfld; lia).
  assert (bfType (file_bytes img) = bfType f) as Esig by (apply Hfld; lia).
  pose proof (length_file_bytes img Hsh ltac:(cbn; lia) Hhd) as Hflen.
  cbn [img BMPImage.width BMPImage.height m_image_info m_hdrs width height
       bit_count size] in Hflen.
  exists img. repeat split; try done; try apply Hsh.
  - intros i j Hi Hj. eexists. split; [by apply Hpix|].
    apply channels_pixel_in.
  - apply write_image_ok; cbn; [done|unfold rows; lia|lia|done].
  - unfold valid_bmp, rows. rewrite Esig, Eoff, Ew, Eh, Ebc, Hflen.
    unfold rows in *. repeat (apply andb_true_intro; split); lia.
  - intros i j p Hi Hj Hld. unfold file_pixel. rewrite Eoff, Ew, Ebc.
    rewrite <- (channels_pixel_in p).
    pose proof (pixel_in_file_bytes img Hsh ltac:(cbn; lia) Hhd p i j p Hi Hj Hld) as E.
    cbn in E. rewrite E. apply channels_reread.
Qed.

(** * The statements of the specification *)

(** ** Round trip *)

(** Decoding, encoding and decoding again: the second array holds, in the
    row where the reader puts the [row]-th stored row, what the first
    array holds in row [row]. *)
Lemma roundtrip_rows (u1 u2 : Pixel) (f : list BYTE) :
  valid_bmp f = true →
  ∃ img out img',
    read_image u1 f = Ok img ∧ write_image img = Ok out ∧
    read_image u2 out = Ok img' ∧
    m_image_info img' = m_image_info img ∧ m_hdrs img' = m_hdrs img ∧
    ∀ row col, 0 ≤ row < BMPImage.height img → 0 ≤ col < BMPImage.width img →
      ∃ p p',
        pixel_at img row col = Ok p ∧
        pixel_at img'
          (if is_top_down f then BMPImage.height img - 1 - row else row) col = Ok p' ∧
        channels (bit_count (m_image_info img)) p'
        = channels (bit_count (m_image_info img)) p.
Proof.
  intros Hv.
  destruct (decode_encode u1 f Hv)
    as (img & Hrd & Hinfo & Hhd & Hsh & _ & Hwr & Htake & Hv' & Eoff & Ew & Eh & Ebc & Hfp).
  destruct (decode_encode u2 (file_bytes img) Hv')
    as (img' & Hrd' & Hinfo' & Hhd' & _ & Hpix' & _).
  assert (rows (file_bytes img) = rows f) as Er by (unfold rows; by rewrite Eh).
  assert (is_top_down (file_bytes img) = is_top_down f) as Etd
    by (unfold is_top_down; by rewrite Eh).
  rewrite Eoff, Ew, Ebc, Er, ?Etd in *.
  exists img, (file_bytes img), img'. repeat split; try done.
  - by rewrite Hinfo, Hinfo'.
  - by rewrite Hhd, Hhd', Htake.
  - unfold BMPImage.height, BMPImage.width, pixel_at. rewrite Hinfo. cbn.
    intros row col Hrow Hcol.
    destruct (load_in_bounds _ _ _ row col Hsh Hrow Hcol) as [p Hp].
    destruct (Hpix' row col Hrow Hcol) as (p' & Hp' & Hch).
    exists p, p'. repeat split; [done|done|].
    rewrite Hch. by apply Hfp.
Qed.

(** C1, as amended: on a valid 24- or 32-bit file stored bottom-up,
    decoding, encoding and decoding again succeeds, keeps the header and
    the image information, and gives at every row and column the pixel
    (its B, G, R, and A at 32 bits) of the first decoding. *)
Theorem roundtrip_bottom_up (u1 u2 : Pixel) (f : list BYTE) :
  valid_bmp f = true → is_top_down f = false →
  ∃ img out img',
    read_image u1 f = Ok img ∧ write_image img = Ok out ∧
    read_image u2 out = Ok img' ∧
    m_image_info img' = m_image_info img ∧ m_hdrs img' = m_hdrs img ∧
    ∀ row col, 0 ≤ row < BMPImage.height img → 0 ≤ col < BMPImage.width img →
      ∃ p p',
        pixel_at img row col = Ok p ∧ pixel_at img' row col = Ok p' ∧
        channels (bit_count (m_image_info img)) p'
        = channels (bit_count (m_image_info img)) p.
Proof.
  intros Hv Hbu.
  destruct (roundtrip_rows u1 u2 f Hv)
    as (img & out & img' & Hrd & Hwr & Hrd' & Hinfo & Hhd & Hpix).
  rewrite Hbu in Hpix. by exists img, out, img'.
Qed.

(** An instance: the file [bottom_up_1x2]. *)
Lemma roundtrip_bottom_up_witness :
  ∃ img out img',
    read_image black bottom_up_1x2 = Ok img ∧ write_image img = Ok out ∧
    read_image black out = Ok img' ∧
    m_image_info img' = m_image_info img ∧ m_hdrs img' = m_hdrs img ∧
    ∀ row col, 0 ≤ row < BMPImage.height img → 0 ≤ col < BMPImage.width img →
      ∃ p p',
        pixel_at img row col = Ok p ∧ pixel_at img' row col = Ok p' ∧
        channels (bit_count (m_image_info img)) p'
        = channels (bit_count (m_image_info img)) p.
Proof.
  apply (roundtrip_bottom_up black black bottom_up_1x2); reflexivity.
Defined.

(** C1 as stated fails for a file stored top-down: the pixel at (0, 0)
    after decoding, encoding and decoding again is not the pixel at (0, 0)
    of the first decoding. *)
Lemma roundtrip_top_down_counterexample :
  valid_bmp top_down_1x2 = true ∧
  ∃ img out img' p p',
    read_image black top_down_1x2 = Ok img ∧ write_image img = Ok out ∧
    read_image black out = Ok img' ∧
    pixel_at img 0 0 = Ok p ∧ pixel_at img' 0 0 = Ok p' ∧
    channels 24 p' ≠ channels 24 p.
Proof.
  split; [reflexivity|].
  eexists _, _, _, _, _.
  split; [vm_compute; reflexivity|].
  split; [vm_compute; reflexivity|].
  split; [vm_compute; reflexivity|].
  split; [vm_compute; reflexivity|].
  split; [vm_compute; reflexivity|].
  vm_compute. discriminate.
Qed.

(** ** Row order in memory *)

Lemma fixed_row_involutive td h i : fixed_row td h (fixed_row td h i) = i.
Proof. unfold fixed_row. destruct td; lia. Qed.

Lemma fixed_row_visual td h v :
  fixed_row td h (stored_row_of_visual td h v) = h - 1 - v.
Proof. unfold fixed_row, stored_row_of_visual. destruct td; lia. Qed.

(** C2, as amended: the decoder stores the [i]-th row of the file at row
    [height - 1 - i] of the array when the file is top-down and at row [i]
    when it is bottom-up, so the array is bottom-up whatever the file's
    order: the [v]-th row of the picture from the top is row
    [height - 1 - v], and row 0 is the bottom row. *)
Theorem decoder_stores_bottom_up (uninit : Pixel) (f : list BYTE) :
  valid_bmp f = true →
  ∃ img,
    read_image uninit f = Ok img ∧
    BMPImage.height img = rows f ∧ BMPImage.width img = biWidth f ∧
    (∀ i j, 0 ≤ i < rows f → 0 ≤ j < biWidth f →
       ∃ p, pixel_at img (if is_top_down f then rows f - 1 - i else i) j = Ok p
            ∧ channels (biBitCount f) p = file_pixel f i j) ∧
    (∀ v j, 0 ≤ v < rows f → 0 ≤ j < biWidth f →
       ∃ p, pixel_at img (rows f - 1 - v) j = Ok p
            ∧ channels (biBitCount f) p = visual_pixel f v j).
Proof.
  intros Hv.
  destruct (decode_encode uninit f Hv) as (img & Hrd & Hinfo & _ & _ & Hpix & _).
  exists img. unfold BMPImage.height, BMPImage.width, pixel_at. rewrite Hinfo.
  split; [done|]. split; [done|]. split; [done|]. split.
  - intros i j Hi Hj. apply (Hpix i j Hi Hj).
  - intros v j Hi Hj. unfold visual_pixel.
    rewrite <- (fixed_row_visual (is_top_down f)). apply Hpix; [|done].
    unfold stored_row_of_visual. destruct (is_top_down f); lia.
Qed.

(** An instance: the file [bottom_up_1x2]. *)
Lemma decoder_stores_bottom_up_witness :
  valid_bmp bottom_up_1x2 = true ∧
  ∃ img,
    read_image black bottom_up_1x2 = Ok img ∧
    BMPImage.height img = rows bottom_up_1x2 ∧
    BMPImage.width img = biWidth bottom_up_1x2 ∧
    (∀ i j, 0 ≤ i < rows bottom_up_1x2 → 0 ≤ j < biWidth bottom_up_1x2 →
       ∃ p, pixel_at img (if is_top_down bottom_up_1x2
                          then rows bottom_up_1x2 - 1 - i else i) j = Ok p
            ∧ channels (biBitCount bottom_up_1x2) p = file_pixel bottom_up_1x2 i j) ∧
    (∀ v j, 0 ≤ v < rows bottom_up_1x2 → 0 ≤ j < biWidth bottom_up_1x2 →
       ∃ p, pixel_at img (rows bottom_up_1x2 - 1 - v) j = Ok p
            ∧ channels (biBitCount bottom_up_1x2) p = visual_pixel bottom_up_1x2 v j).
Proof.
  split; [reflexivity|].
  apply (decoder_stores_bottom_up black bottom_up_1x2). reflexivity.
Defined.

(** C2 as stated fails: in a bottom-up file of two rows the first stored
    row does not land in row [2 - 1 - 0] of the array, and row 0 of the
    array is not the top row of the picture. *)
Lemma decoder_top_down_counterexample :
  valid_bmp bottom_up_1x2 = true ∧
  ∃ img p p0,
    read_image black bottom_up_1x2 = Ok img ∧
    pixel_at img
      (claimed_memory_row (is_top_down bottom_up_1x2) (rows bottom_up_1x2) 0) 0
    = Ok p ∧
    channels 24 p ≠ file_pixel bottom_up_1x2 0 0 ∧
    pixel_at img 0 0 = Ok p0 ∧
    channels 24 p0 ≠ visual_pixel bottom_up_1x2 0 0.
Proof.
  split; [reflexivity|].
  eexists _, _, _.
  split; [vm_compute; reflexivity|].
  split; [vm_compute; reflexivity|].
  split; [vm_compute; discriminate|].
  split; [vm_compute; reflexivity|].
  vm_compute. discriminate.
Qed.



(** ** Row order in the written file *)

(** C4, as amended: the encoder writes the header bytes unchanged (height
    field and its sign included) and then the rows of the array in index
    order; as the array is bottom-up, the [i]-th row stored in the output
    is row [height - 1 - i] of the picture from the top, whether the input
    was top-down or bottom-up. *)
Theorem encoder_writes_bottom_up (uninit : Pixel) (f : list BYTE) :
  valid_bmp f = true →
  ∃ img out,
    read_image uninit f = Ok img ∧ write_image img = Ok out ∧
    out = file_bytes img ∧
    take (Z.to_nat (bfOffBits f)) out = take (Z.to_nat (bfOffBits f)) f ∧
    biHeight out = biHeight f ∧
    ∀ i j, 0 ≤ i < rows f → 0 ≤ j < biWidth f →
      file_pixel out i j = visual_pixel f (rows f - 1 - i) j.
Proof.
  intros Hv.
  destruct (decode_encode uninit f Hv)
    as (img & Hrd & _ & _ & _ & Hpix & Hwr & Htake & _ & _ & _ & Eh & _ & Hfp).
  exists img, (file_bytes img). repeat split; try done.
  intros i j Hi Hj.
  destruct (Hpix (fixed_row (is_top_down f) (rows f) i) j) as (p & Hp & Hpc);
    [unfold fixed_row; destruct (is_top_down f); lia|done|].
  rewrite fixed_row_involutive in Hp.
  rewrite (Hfp i j p Hi Hj Hp), Hpc. unfold visual_pixel. f_equal.
  unfold fixed_row, stored_row_of_visual. destruct (is_top_down f); lia.
Qed.

(** An instance: the file [top_down_1x2]. *)
Lemma encoder_writes_bottom_up_witness :
  valid_bmp top_down_1x2 = true ∧
  ∃ img out,
    read_image black top_down_1x2 = Ok img ∧ write_image img = Ok out ∧
    out = file_bytes img ∧
    take (Z.to_nat (bfOffBits top_down_1x2)) out
    = take (Z.to_nat (bfOffBits top_down_1x2)) top_down_1x2 ∧
    biHeight out = biHeight top_down_1x2 ∧
    ∀ i j, 0 ≤ i < rows top_down_1x2 → 0 ≤ j < biWidth top_down_1x2 →
      file_pixel out i j = visual_pixel top_down_1x2 (rows top_down_1x2 - 1 - i) j.
Proof.
  split; [reflexivity|].
  apply (encoder_writes_bottom_up black top_down_1x2). reflexivity.
Defined.

(** C4 as stated fails: the first row stored in the file written for
    [bottom_up_1x2] (and likewise for [top_down_1x2]) is not the top row of
    the picture that was read. *)
Lemma encoder_top_down_counterexample :
  (∃ img out,
     read_image black bottom_up_1x2 = Ok img ∧ write_image img = Ok out ∧
     file_pixel out 0 0 ≠ visual_pixel bottom_up_1x2 0 0) ∧
  (∃ img out,
     read_image black top_down_1x2 = Ok img ∧ write_image img = Ok out ∧
     file_pixel out 0 0 ≠ visual_pixel top_down_1x2 0 0).
Proof.
  split; eexists _, _.
  - split; [vm_compute; reflexivity|].
    split; [vm_compute; reflexivity|]. vm_compute. discriminate.
  - split; [vm_compute; reflexivity|].
    split; [vm_compute; reflexivity|]. vm_compute. discriminate.
Qed.

(** ** Row padding *)

(** C5: the reader and the writer compute the same padding,
    [(4 - (width * 3) % 4) % 4], from the 3-byte stride whatever the bit
    count: 1 for width 5 and 0 for width 4.  On a valid file of that width
    the reader finds column [j] of the [i]-th stored row
    [i * (width * bytes_per_pixel + padding)] bytes after the start of the
    pixel data, so it skips exactly the padding after each row; and the
    writer emits, for each row, the bytes of its pixels followed by
    exactly that many zero bytes. *)
Theorem row_padding (w : Z) (uninit : Pixel) (f : list BYTE) :
  let pad := (4 - (w * 3) mod 4) mod 4 in
  BMPImageReader.padding w = pad ∧ BMPImageWriter.padding w = pad ∧
  BMPImageReader.padding 5 = 1 ∧ BMPImageReader.padding 4 = 0 ∧
  BMPImageWriter.padding 5 = 1 ∧ BMPImageWriter.padding 4 = 0 ∧
  (valid_bmp f = true → biWidth f = w →
   ∃ img out,
     read_image uninit f = Ok img ∧ write_image img = Ok out ∧
     (∀ i j, 0 ≤ i < rows f → 0 ≤ j < w →
        ∃ p, pixel_at img (fixed_row (is_top_down f) (rows f) i) j = Ok p ∧
             channels (biBitCount f) p
             = pixel_bytes_at (biBitCount f) f
                 (bfOffBits f
                  + i * (w * bytes_per_pixel (biBitCount f) + pad)
                  + j * bytes_per_pixel (biBitCount f))) ∧
     out = take (Z.to_nat (bfOffBits f)) f
           ++ concat (map (λ row, concat (map (channels (biBitCount f)) row)
                                  ++ replicate (Z.to_nat pad) x00)
                        (m_array_pixels img))).
Proof.
  intros pad. pose proof (padding_formula w) as Hpad. fold pad in Hpad.
  split; [done|]. split; [done|]. do 4 (split; [reflexivity|]).
  intros Hv <-.
  destruct (decode_encode uninit f Hv)
    as (img & Hrd & Hinfo & Hhd & _ & Hpix & Hwr & _).
  exists img, (file_bytes img). split; [done|]. split; [done|]. split.
  - intros i j Hi Hj. destruct (Hpix i j Hi Hj) as (p & Hp & Hpc).
    exists p. split; [done|]. rewrite Hpc.
    unfold file_pixel, pixel_offset, row_pitch. by rewrite Hpad.
  - unfold file_bytes, row_bytes, BMPImage.width. rewrite Hinfo, Hhd. cbn.
    rewrite take_take, Nat.min_id.
    unfold BMPImageWriter.padding. fold (BMPImageReader.padding (biWidth f)).
    by rewrite Hpad.
Qed.

(** An instance: width 1 and the file [bottom_up_1x2]. *)
Lemma row_padding_witness :
  ∃ img out,
    read_image black bottom_up_1x2 = Ok img ∧ write_image img = Ok out ∧
    (∀ i j, 0 ≤ i < rows bottom_up_1x2 → 0 ≤ j < 1 →
       ∃ p, pixel_at img
              (fixed_row (is_top_down bottom_up_1x2) (rows bottom_up_1x2) i) j
            = Ok p ∧
            channels (biBitCount bottom_up_1x2) p
            = pixel_bytes_at (biBitCount bottom_up_1x2) bottom_up_1x2
                (bfOffBits bottom_up_1x2
                 + i * (1 * bytes_per_pixel (biBitCount bottom_up_1x2)
                        + (4 - (1 * 3) mod 4) mod 4)
                 + j * bytes_per_pixel (biBitCount bottom_up_1x2))) ∧
    out = take (Z.to_nat (bfOffBits bottom_up_1x2)) bottom_up_1x2
          ++ concat (map (λ row, concat (map (channels (biBitCount bottom_up_1x2)) row)
                                 ++ replicate (Z.to_nat ((4 - (1 * 3) mod 4) mod 4)) x00)
                       (m_array_pixels img)).
Proof.
  apply (row_padding 1 black bottom_up_1x2); reflexivity.
Defined.

(** ** Signature *)

(** C6: a file whose first two bytes are not 0x42, 0x4D makes
    [read_image] throw "Wrong file signature"; no image is returned. *)
Theorem wrong_signature_rejected (uninit : Pixel) (c0 c1 : BYTE) (rest : list BYTE) :
  (c0, c1) ≠ (x42, x4d) →
  read_image uninit (c0 :: c1 :: rest) = Throw WrongSignature ∧
  ∀ img, read_image uninit (c0 :: c1 :: rest) ≠ Ok img.
Proof.
  intros Hne.
  assert (read_image uninit (c0 :: c1 :: rest) = Throw WrongSignature) as E.
  { unfold read_image, read_signature, read_WORD, open.
    rewrite read_ok by (cbn; lia). rewrite !bind_Ok. cbv beta iota.
    cbn [gpos contents skipn firstn le_val]. rewrite take_0. cbn [le_val].
    destruct (Z.eqb_spec (byte_val c0 + 256 * (byte_val c1 + 256 * 0)) 19778)
      as [Heq|]; [|done].
    exfalso. apply Hne.
    pose proof (byte_val_range c0). pose proof (byte_val_range c1).
    assert (byte_val c0 = byte_val x42) by (change (byte_val x42) with 66; lia).
    assert (byte_val c1 = byte_val x4d) by (change (byte_val x4d) with 77; lia).
    f_equal; by apply byte_val_inj. }
  split; [done|]. intros img. rewrite E. discriminate.
Qed.

(** An instance: a file that starts with the bytes of a ZIP archive. *)
Lemma wrong_signature_rejected_witness :
  read_image black (x50 :: x4b :: [x03; x04]) = Throw WrongSignature ∧
  ∀ img, read_image black (x50 :: x4b :: [x03; x04]) ≠ Ok img.
Proof.
  apply (wrong_signature_rejected black x50 x4b [x03; x04]). discriminate.
Defined.

(** ** set_pixel *)

Lemma set_pixel_guarded img x y color :
  in_guard img x y → set_pixel img x y color = set_pixel_at img x y color.
Proof.
  intros [Hx Hy]. unfold set_pixel.
  by replace ((x >=? 0) && (x <? BMPImage.width img)
              && (y >=? 0) && (y <? BMPImage.height img)) with true by lia.
Qed.

Lemma set_pixel_unguarded img x y color :
  ¬ in_guard img x y → set_pixel img x y color = Ok img.
Proof.
  intros Hg. unfold set_pixel, in_guard in *.
  by replace ((x >=? 0) && (x <? BMPImage.width img)
              && (y >=? 0) && (y <? BMPImage.height img)) with false by lia.
Qed.

Lemma in_guard_dec img x y : in_guard img x y ∨ ¬ in_guard img x y.
Proof. unfold in_guard. lia. Qed.

(** What a successful [set_pixel] leaves alone. *)
Lemma set_pixel_frame img x y color img' :
  set_pixel img x y color = Ok img' →
  m_image_info img' = m_image_info img ∧ m_hdrs img' = m_hdrs img ∧
  (∀ i j, i ≠ x ∨ j ≠ y ∨ ¬ in_guard img i j → pixel_at img' i j = pixel_at img i j) ∧
  (in_guard img x y → pixel_at img' x y = Ok color) ∧
  (¬ in_guard img x y → img' = img).
Proof.
  intros H. destruct (in_guard_dec img x y) as [Hg|Hg].
  - rewrite set_pixel_guarded in H by done. unfold set_pixel_at in H.
    apply bind_Ok_inv in H as (arr & Hst & [= <-]). cbn.
    repeat split; try done.
    + intros i j Hij. unfold pixel_at. cbn.
      destruct (decide (i = x ∧ j = y)) as [[-> ->]|Hne].
      * destruct Hij as [?|[?|?]]; done.
      * apply (store_load_ne _ _ _ _ _ _ _ Hst). lia.
    + intros _. unfold pixel_at. cbn. by eapply store_load_eq.
  - rewrite set_pixel_unguarded in H by done. injection H as <-. done.
Qed.

(** C7 fails on the code: [set_pixel] tests [x] against the width and [y]
    against the height, and then indexes the array of rows with [x] and
    the row with [y].  On the image of a valid file of width 2 and height
    1 the point (1, 0) passes the test, but there is no row 1: the access
    is outside the array.  On the image of a valid file of width 1 and
    height 2 the point (0, 1) passes the test, but row 0 has no column
    1. *)
Theorem set_pixel_guard_admits_out_of_bounds :
  (valid_bmp wide_2x1 = true ∧
   ∃ img,
     read_image black wide_2x1 = Ok img ∧
     BMPImage.width img = 2 ∧ BMPImage.height img = 1 ∧
     in_guard img 1 0 ∧
     m_array_pixels img !! 1%nat = None ∧
     pixel_at img 1 0 = Undefined ∧
     set_pixel img 1 0 black = Undefined) ∧
  (valid_bmp bottom_up_1x2 = true ∧
   ∃ img row,
     read_image black bottom_up_1x2 = Ok img ∧
     BMPImage.width img = 1 ∧ BMPImage.height img = 2 ∧
     in_guard img 0 1 ∧
     m_array_pixels img !! 0%nat = Some row ∧ row !! 1%nat = None ∧
     pixel_at img 0 1 = Undefined ∧
     set_pixel img 0 1 black = Undefined).
Proof.
  split; (split; [reflexivity|]).
  - eexists. split; [vm_compute; reflexivity|].
    repeat split; try reflexivity; vm_compute; congruence.
  - eexists _, _. split; [vm_compute; reflexivity|].
    split; [reflexivity|]. split; [reflexivity|].
    split; [unfold in_guard; vm_compute; repeat split; congruence|].
    split; [vm_compute; reflexivity|].
    repeat split; reflexivity.
Qed.

(** ** The preview *)

(** C9, as amended: on an image whose array has [height] rows of [width]
    pixels, [print_image] prints one line per row of the array, in index
    order, each ended by a newline; in a line each pixel of the row gives,
    in column order, '@' when it is black (r = g = b = 0), '*' when it is
    white (r = g = b = 255), and no character otherwise. *)
Theorem preview_lines (img : BMPImage) :
  shaped (BMPImage.height img) (BMPImage.width img) (m_array_pixels img) →
  BMPImage.print_image img
  = Ok (concat (map (λ row, concat (map pixel_chars row) ++ [BMPImage.endl])
                  (m_array_pixels img))) ∧
  Z.of_nat (length (m_array_pixels img)) = BMPImage.height img ∧
  ∀ p,
    (r p = x00 → g p = x00 → b p = x00 → pixel_chars p = ["@"%char]) ∧
    (r p = xff → g p = xff → b p = xff → pixel_chars p = ["*"%char]) ∧
    (¬ (r p = x00 ∧ g p = x00 ∧ b p = x00) →
     ¬ (r p = xff ∧ g p = xff ∧ b p = xff) → pixel_chars p = []).
Proof.
  intros (Hh & Hw & Hlen & Hrows). split; [|split; [done|]].
  - unfold BMPImage.print_image.
    set (arr := m_array_pixels img) in *.
    pose (Q := λ (i : Z) (cout : list ascii),
      cout = concat (map (λ row, concat (map pixel_chars row) ++ [BMPImage.endl])
                       (take (Z.to_nat i) arr))).
    lazymatch goal with
    | |- for_ ?n ?i ?body ?t = _ =>
        destruct (for_inv Q body n i t) as (cout & -> & Hcout)
    end.
    + unfold Q. change (Z.to_nat 0) with 0%nat. by rewrite take_0.
    + intros i cout Hi ->.
      destruct (lookup_lt_is_Some_2 arr (Z.to_nat i)) as [row Hrow]; [lia|].
      specialize (Hrows _ _ Hrow).
      set (done_rows := concat (map _ (take (Z.to_nat i) arr))).
      pose (P := λ (j : Z) (cout : list ascii),
        cout = done_rows ++ concat (map pixel_chars (take (Z.to_nat j) row))).
      lazymatch goal with
      | |- context [for_ ?n ?i ?body ?t ≫= _] =>
          destruct (for_inv P body n i t) as (cout1 & -> & Hcout1)
      end.
      * unfold P. change (Z.to_nat 0) with 0%nat. by rewrite take_0, app_nil_r.
      * intros j cout1 Hj ->.
        destruct (lookup_lt_is_Some_2 row (Z.to_nat j)) as [p Hp]; [lia|].
        rewrite (load_lookup arr i j row p) by (done || lia). rewrite bind_Ok.
        exists (done_rows ++ concat (map pixel_chars (take (Z.to_nat j) row))
                ++ pixel_chars p).
        split.
        -- unfold pixel_chars.
           destruct (Byte.eqb (r p) x00 && Byte.eqb (g p) x00 && Byte.eqb (b p) x00);
             [by rewrite <- (assoc_L (++))|].
           destruct (Byte.eqb (r p) xff && Byte.eqb (g p) xff && Byte.eqb (b p) xff);
             [by rewrite <- (assoc_L (++))|].
           by rewrite app_nil_r.
        -- unfold P. replace (Z.to_nat (j + 1)) with (S (Z.to_nat j)) by lia.
           rewrite (take_S_r _ _ _ Hp), map_app, concat_app. cbn [map concat].
           by rewrite app_nil_r.
      * rewrite bind_Ok. eexists. split; [done|]. unfold P in Hcout1.
        replace (Z.to_nat (0 + Z.of_nat (Z.to_nat (BMPImage.width img))))
          with (length row) in Hcout1 by lia.
        rewrite firstn_all in Hcout1. subst cout1. unfold Q, done_rows.
        replace (Z.to_nat (i + 1)) with (S (Z.to_nat i)) by lia.
        rewrite (take_S_r _ _ _ Hrow), map_app, concat_app. cbn [map concat].
        by rewrite app_nil_r, (assoc_L (++)).
    + unfold Q in Hcout.
      replace (Z.to_nat (0 + Z.of_nat (Z.to_nat (BMPImage.height img))))
        with (length arr) in Hcout by lia.
      rewrite firstn_all in Hcout. by subst cout.
  - intros p. unfold pixel_chars. repeat split.
    + by intros -> -> ->.
    + by intros -> -> ->.
    + intros Hb Hw'.
      destruct (Byte.eqb (r p) x00 && Byte.eqb (g p) x00 && Byte.eqb (b p) x00) eqn:E1.
      { exfalso. apply Hb. apply andb_prop in E1 as [E1 E3].
        apply andb_prop in E1 as [E1 E2].
        apply Byte.byte_dec_bl in E1, E2, E3. done. }
      destruct (Byte.eqb (r p) xff && Byte.eqb (g p) xff && Byte.eqb (b p) xff) eqn:E2;
        [|done].
      exfalso. apply Hw'. apply andb_prop in E2 as [E2 E4].
      apply andb_prop in E2 as [E2 E3].
      apply Byte.byte_dec_bl in E2, E3, E4. done.
Qed.

(** An instance: the image of one black pixel. *)
Lemma preview_lines_witness :
  shaped 1 1 [[black]] ∧
  BMPImage.print_image black_1x1_decoded
  = Ok (concat (map (λ row, concat (map pixel_chars row) ++ [BMPImage.endl])
                  (m_array_pixels black_1x1_decoded))).
Proof.
  assert (shaped 1 1 [[black]]) as Hs.
  { repeat split; try done. intros [|i] row; cbn; [|done]. by intros [= <-]. }
  split; [exact Hs|]. apply (preview_lines black_1x1_decoded Hs).
Defined.

(** C9 as stated fails: a pixel that is neither black nor white gives no
    character, not a blank.  The two pixels of [bottom_up_1x2] are
    (r, g, b) = (3, 2, 1) and (6, 5, 4); the preview is two empty lines. *)
Lemma preview_blank_counterexample :
  ∃ img,
    read_image black bottom_up_1x2 = Ok img ∧
    BMPImage.width img = 1 ∧ BMPImage.height img = 2 ∧
    BMPImage.print_image img = Ok [BMPImage.endl; BMPImage.endl] ∧
    BMPImage.print_image img ≠ Ok (claimed_preview img).
Proof.
  eexists. split; [vm_compute; reflexivity|].
  repeat split; try reflexivity. vm_compute. discriminate.
Qed.

(** ** Bresenham lines *)

Lemma draw_line_loop_points fuel dx dy sx sy x1 y1 clr st img pts :
  line_points fuel dx dy sx sy x1 y1 st = Some pts →
  draw_line_loop fuel dx dy sx sy x1 y1 clr st img = Some (plot img pts clr).
Proof.
  revert st img pts. induction fuel as [|fuel IH]; intros st img pts; [done|].
  cbn [line_points draw_line_loop plot].
  destruct (line_step dx dy sx sy x1 y1 st) as [st'|] eqn:Hstep.
  - destruct (line_points fuel dx dy sx sy x1 y1 st') as [pts'|] eqn:Hpts; [|done].
    intros [= <-]. cbn [plot fst snd].
    destruct (set_pixel img st.1.1 st.1.2 clr) as [img'| |]; [|done..].
    rewrite bind_Ok. by apply IH.
  - intros [= <-]. cbn [plot fst snd].
    by destruct (set_pixel img st.1.1 st.1.2 clr).
Qed.

Lemma draw_line_loop_Ok fuel dx dy sx sy x1 y1 clr st img img' :
  draw_line_loop fuel dx dy sx sy x1 y1 clr st img = Some (Ok img') →
  ∃ pts, line_points fuel dx dy sx sy x1 y1 st = Some pts ∧ plot img pts clr = Ok img'.
Proof.
  revert st img. induction fuel as [|fuel IH]; intros st img; [done|].
  cbn [line_points draw_line_loop].
  destruct (set_pixel img st.1.1 st.1.2 clr) as [img1| |] eqn:Hset; [|done..].
  destruct (line_step dx dy sx sy x1 y1 st) as [st'|].
  - intros H. destruct (IH _ _ H) as (pts & -> & Hplot).
    eexists. split; [done|]. cbn [plot fst snd]. by rewrite Hset, bind_Ok.
  - intros [= <-]. eexists. split; [done|]. cbn [plot fst snd]. by rewrite Hset.
Qed.

(** What a successful [plot] leaves alone. *)
Lemma plot_frame pts : ∀ img clr img',
  plot img pts clr = Ok img' →
  m_image_info img' = m_image_info img ∧ m_hdrs img' = m_hdrs img ∧
  ∀ i j, (i, j) ∉ pts ∨ ¬ in_guard img i j → pixel_at img' i j = pixel_at img i j.
Proof.
  induction pts as [|[x y] pts IH]; intros img clr img'; cbn [plot fst snd].
  - by intros [= <-].
  - intros H. apply bind_Ok_inv in H as (img1 & Hset & Hplot).
    destruct (set_pixel_frame _ _ _ _ _ Hset) as (Hi1 & Hh1 & Hf1 & _).
    destruct (IH _ _ _ Hplot) as (Hi & Hh & Hf).
    split; [congruence|]. split; [congruence|].
    intros i j Hij. rewrite Hf, Hf1; [done| |].
    + destruct Hij as [Hij|Hij]; [|auto].
      destruct (decide (i = x)) as [->|]; [|auto].
      destruct (decide (j = y)) as [->|]; [|auto].
      exfalso. apply Hij. apply list_elem_of_here.
    + destruct Hij as [Hij|Hij].
      * left. intros Hin. apply Hij. by apply list_elem_of_further.
      * right. unfold in_guard, BMPImage.width, BMPImage.height in *.
        by rewrite Hi1.
Qed.

Section bresenham.
Variables x0 y0 x1 y1 : Z.
Hypothesis Hrange : line_in_range x0 y0 x1 y1.

Let dx := Z.abs (x1 - x0).
Let ady := Z.abs (y1 - y0).
Let sx := if x0 <? x1 then 1 else -1.
Let sy := if y0 <? y1 then 1 else -1.

Lemma line_step_inv st rx ry :
  line_inv x0 y0 x1 y1 st rx ry →
  (rx = 0 ∧ ry = 0 ∧ line_step dx (- ady) sx sy x1 y1 st = None) ∨
  (∃ st' rx' ry',
     line_step dx (- ady) sx sy x1 y1 st = Some st' ∧
     line_inv x0 y0 x1 y1 st' rx' ry' ∧ rx' + ry' < rx + ry).
Proof.
  destruct st as [[x y] err]. unfold line_inv. fold dx ady sx sy. cbn [fst snd].
  intros (Hrx & Hry & Hx & Hy & Herr & Hb).
  destruct Hrange as ((Hx0 & Hy0) & (Hx1 & Hy1) & Hdx & Hdy).
  fold dx in Hdx. fold ady in Hdy.
  assert (sx = 1 ∧ x0 < x1 ∨ sx = -1 ∧ x1 ≤ x0) as Hsx
    by (subst sx; destruct (Z.ltb_spec x0 x1); lia).
  assert (sy = 1 ∧ y0 < y1 ∨ sy = -1 ∧ y1 ≤ y0) as Hsy
    by (subst sy; destruct (Z.ltb_spec y0 y1); lia).
  assert (0 ≤ dx ∧ 0 ≤ ady) as [Hdx0 Hady0] by (split; apply Z.abs_nonneg).
  assert (0 ≤ rx * ady) as HA0 by (apply Z.mul_nonneg_nonneg; [apply Hrx|done]).
  assert (0 ≤ ry * dx) as HB0 by (apply Z.mul_nonneg_nonneg; [apply Hry|done]).
  assert (1 ≤ rx → ady ≤ rx * ady) as HA1.
  { intros H1. rewrite <- (Z.mul_1_l ady) at 1. by apply Z.mul_le_mono_nonneg_r. }
  assert (1 ≤ ry → dx ≤ ry * dx) as HB1.
  { intros H1. rewrite <- (Z.mul_1_l dx) at 1. by apply Z.mul_le_mono_nonneg_r. }
  assert (rx = 0 → rx * ady = 0) as HAz by (by intros ->).
  assert (ry = 0 → ry * dx = 0) as HBz by (by intros ->).
  assert (sx * rx = rx ∨ sx * rx = - rx) as Hsr by (destruct Hsx as [[-> _]|[-> _]]; lia).
  assert (sy * ry = ry ∨ sy * ry = - ry) as Hsr' by (destruct Hsy as [[-> _]|[-> _]]; lia).
  assert (- 2 ^ 31 ≤ x < 2 ^ 31 ∧ - 2 ^ 31 ≤ y < 2 ^ 31) as [Hxr Hyr].
  { subst dx ady. destruct Hsx as [[-> ?]|[-> ?]], Hsy as [[-> ?]|[-> ?]]; lia. }
  unfold line_step.
  rewrite (wrap_id (2 * err)) by lia.
  destruct (Z.eqb_spec x x1) as [Ex|Ex], (Z.eqb_spec y y1) as [Ey|Ey];
    cbn [andb]; cbv iota.
  - left. split; [lia|]. split; [lia|done].
  - (* x arrived, y did not: only the y step can be taken *)
    right. assert (rx = 0) as -> by lia. assert (1 ≤ ry) by lia.
    replace (2 * err >=? - ady) with false by lia. cbn.
    replace (2 * err <=? dx) with true by lia.
    destruct (Z.eqb_spec y y1); [done|].
    rewrite (wrap_id (y + sy)), (wrap_id (err + dx)) by lia.
    exists (x, y + sy, err + dx), 0, (ry - 1). split; [done|].
    cbn [fst snd]. split; [|lia].
    repeat split; try lia; destruct Hsy as [[-> ?]|[-> ?]]; lia.
  - (* y arrived, x did not: only the x step can be taken *)
    right. assert (ry = 0) as -> by lia. assert (1 ≤ rx) by lia.
    replace (2 * err >=? - ady) with true by lia.
    destruct (Z.eqb_spec x x1); [done|].
    rewrite (wrap_id (x + sx)), (wrap_id (err + - ady)) by lia. cbn.
    replace (2 * err <=? dx) with false by lia.
    exists (x + sx, y, err + - ady), (rx - 1), 0. split; [done|].
    cbn [fst snd]. split; [|lia].
    repeat split; try lia; destruct Hsx as [[-> ?]|[-> ?]]; lia.
  - right. assert (1 ≤ rx) by lia. assert (1 ≤ ry) by lia.
    destruct (Z.geb_spec (2 * err) (- ady)) as [Hge|Hlt].
    + destruct (Z.eqb_spec x x1); [done|].
      rewrite (wrap_id (x + sx)), (wrap_id (err + - ady)) by lia. cbn.
      destruct (Z.leb_spec (2 * err) dx) as [Hle|Hgt].
      * destruct (Z.eqb_spec y y1); [done|].
        rewrite (wrap_id (y + sy)), (wrap_id (err + - ady + dx)) by lia.
        exists (x + sx, y + sy, err + - ady + dx), (rx - 1), (ry - 1).
        split; [done|]. cbn [fst snd]. split; [|lia].
        repeat split; try lia;
          destruct Hsx as [[-> ?]|[-> ?]], Hsy as [[-> ?]|[-> ?]]; lia.
      * exists (x + sx, y, err + - ady), (rx - 1), ry.
        split; [done|]. cbn [fst snd]. split; [|lia].
        repeat split; try lia; destruct Hsx as [[-> ?]|[-> ?]]; lia.
    + cbn. replace (2 * err <=? dx) with true by lia.
      destruct (Z.eqb_spec y y1); [done|].
      rewrite (wrap_id (y + sy)), (wrap_id (err + dx)) by lia.
      exists (x, y + sy, err + dx), rx, (ry - 1).
      split; [done|]. cbn [fst snd]. split; [|lia].
      repeat split; try lia; destruct Hsy as [[-> ?]|[-> ?]]; lia.
Qed.

Lemma line_points_reach n : ∀ st rx ry,
  line_inv x0 y0 x1 y1 st rx ry → rx + ry ≤ Z.of_nat n →
  ∃ pts,
    line_points (S n) dx (- ady) sx sy x1 y1 st = Some pts ∧
    head pts = Some (st.1.1, st.1.2) ∧ last pts = Some (x1, y1) ∧
    Z.of_nat (length pts) ≤ rx + ry + 1.
Proof.
  induction n as [|n IH]; intros st rx ry Hinv Hn;
    destruct (line_step_inv st rx ry Hinv)
      as [(-> & -> & Hstep)|(st' & rx' & ry' & Hstep & Hinv' & Hlt)].
  - cbn [line_points]. rewrite Hstep. eexists. split; [done|].
    destruct Hinv as (_ & _ & Hx & Hy & _). cbn.
    repeat split; [|lia]. do 2 f_equal; lia.
  - destruct Hinv' as (? & ? & _). lia.
  - cbn [line_points]. rewrite Hstep. eexists. split; [done|].
    destruct Hinv as (_ & _ & Hx & Hy & _). cbn.
    repeat split; [|lia]. do 2 f_equal; lia.
  - destruct (IH st' rx' ry' Hinv') as (pts & Hpts & Hhd & Hlast & Hlen); [lia|].
    change (line_points (S (S n)) dx (- ady) sx sy x1 y1 st)
      with (match line_step dx (- ady) sx sy x1 y1 st with
            | None => Some [(st.1.1, st.1.2)]
            | Some st' =>
                match line_points (S n) dx (- ady) sx sy x1 y1 st' with
                | Some pts => Some ((st.1.1, st.1.2) :: pts)
                | None => None
                end
            end).
    rewrite Hstep, Hpts. eexists. split; [done|].
    split; [done|]. split.
    + destruct pts as [|pt pts]; [done|]. by rewrite last_cons_cons.
    + cbn [length]. lia.
Qed.

(** The loop of [draw_line] ends at the end point. *)
Lemma draw_line_points_reach :
  ∃ pts,
    draw_line_points (S (Z.to_nat (dx + ady))) x0 y0 x1 y1 = Some pts ∧
    head pts = Some (x0, y0) ∧ last pts = Some (x1, y1) ∧
    Z.of_nat (length pts) ≤ dx + ady + 1.
Proof.
  destruct Hrange as ((Hx0 & Hy0) & (Hx1 & Hy1) & Hdx & Hdy).
  fold dx in Hdx. fold ady in Hdy.
  unfold draw_line_points, std_abs.
  rewrite (wrap_id (x1 - x0)), (wrap_id (y1 - y0)) by (subst dx ady; lia).
  fold dx ady sx sy.
  rewrite (wrap_id dx), (wrap_id ady), (wrap_id (- ady)), (wrap_id (dx + - ady))
    by (subst dx ady; lia).
  apply (line_points_reach _ (x0, y0, dx + - ady) dx ady); [|lia].
  unfold line_inv. cbn [fst snd]. subst dx ady sx sy.
  destruct (Z.ltb_spec x0 x1), (Z.ltb_spec y0 y1); repeat split; lia.
Qed.

End bresenham.

(** Without overflow in [std::abs] every iteration breaks or moves a
    coordinate one step closer, modulo [2^32], to its target. *)
Lemma steps_left_step s t x :
  s = 1 ∨ s = -1 → is_LONG t → is_LONG x → x ≠ t →
  steps_left s t (wrap (x + s)) = steps_left s t x - 1 ∧ 1 ≤ steps_left s t x.
Proof.
  unfold is_LONG, steps_left, wrap. intros [-> | ->] Ht Hx Hne.
  - Z.div_mod_to_equations. lia.
  - Z.div_mod_to_equations. lia.
Qed.

Lemma steps_left_nonneg s t x : 0 ≤ steps_left s t x.
Proof. unfold steps_left. apply Z.mod_pos_bound. lia. Qed.

Lemma line_step_progress dx dy sx sy x1 y1 st :
  dy ≤ dx → sx = 1 ∨ sx = -1 → sy = 1 ∨ sy = -1 →
  is_LONG x1 → is_LONG y1 → is_LONG st.1.1 → is_LONG st.1.2 →
  line_step dx dy sx sy x1 y1 st = None ∨
  ∃ st',
    line_step dx dy sx sy x1 y1 st = Some st' ∧
    is_LONG st'.1.1 ∧ is_LONG st'.1.2 ∧
    steps_left sx x1 st'.1.1 + steps_left sy y1 st'.1.2
    < steps_left sx x1 st.1.1 + steps_left sy y1 st.1.2.
Proof.
  destruct st as [[x y] err]. cbn [fst snd]. intros Hd Hsx Hsy Hx1 Hy1 Hx Hy.
  unfold line_step.
  destruct ((x =? x1) && (y =? y1)); [by left|].
  set (e2 := wrap (2 * err)).
  destruct (Z.geb_spec e2 dy) as [Hge|Hlt].
  - destruct (Z.eqb_spec x x1) as [Ex|Ex]; [by left|]. cbn.
    destruct (steps_left_step sx x1 x Hsx Hx1 Hx Ex) as [Hs1 Hs2].
    destruct (Z.leb_spec e2 dx) as [Hle|Hgt].
    + destruct (Z.eqb_spec y y1) as [Ey|Ey]; [by left|]. right.
      destruct (steps_left_step sy y1 y Hsy Hy1 Hy Ey) as [Hs3 Hs4].
      eexists. split; [done|]. cbn [fst snd].
      split; [apply wrap_range|]. split; [apply wrap_range|]. lia.
    + right. eexists. split; [done|]. cbn [fst snd].
      split; [apply wrap_range|]. split; [done|]. lia.
  - cbn. replace (e2 <=? dx) with true by lia.
    destruct (Z.eqb_spec y y1) as [Ey|Ey]; [by left|]. right.
    destruct (steps_left_step sy y1 y Hsy Hy1 Hy Ey) as [Hs3 Hs4].
    eexists. split; [done|]. cbn [fst snd].
    split; [done|]. split; [apply wrap_range|]. lia.
Qed.

Lemma line_points_end dx dy sx sy x1 y1 n : ∀ st,
  dy ≤ dx → sx = 1 ∨ sx = -1 → sy = 1 ∨ sy = -1 →
  is_LONG x1 → is_LONG y1 → is_LONG st.1.1 → is_LONG st.1.2 →
  steps_left sx x1 st.1.1 + steps_left sy y1 st.1.2 ≤ Z.of_nat n →
  ∃ pts,
    line_points (S n) dx dy sx sy x1 y1 st = Some pts ∧
    head pts = Some (st.1.1, st.1.2).
Proof.
  induction n as [|n IH]; intros st Hd Hsx Hsy Hx1 Hy1 Hx Hy Hn;
    destruct (line_step_progress dx dy sx sy x1 y1 st Hd Hsx Hsy Hx1 Hy1 Hx Hy)
      as [Hstep|(st' & Hstep & Hx' & Hy' & Hlt)].
  - cbn [line_points]. rewrite Hstep. by eexists.
  - pose proof (steps_left_nonneg sx x1 st'.1.1).
    pose proof (steps_left_nonneg sy y1 st'.1.2). lia.
  - cbn [line_points]. rewrite Hstep. by eexists.
  - destruct (IH st' Hd Hsx Hsy Hx1 Hy1 Hx' Hy') as (pts & Hpts & Hhd); [lia|].
    change (line_points (S (S n)) dx dy sx sy x1 y1 st)
      with (match line_step dx dy sx sy x1 y1 st with
            | None => Some [(st.1.1, st.1.2)]
            | Some st' =>
                match line_points (S n) dx dy sx sy x1 y1 st' with
                | Some pts => Some ((st.1.1, st.1.2) :: pts)
                | None => None
                end
            end).
    rewrite Hstep, Hpts. by eexists.
Qed.

Lemma draw_line_points_end x0 y0 x1 y1 :
  is_LONG x0 → is_LONG y0 → is_LONG x1 → is_LONG y1 →
  wrap (x1 - x0) ≠ - 2 ^ 31 →
  ∃ fuel pts,
    draw_line_points fuel x0 y0 x1 y1 = Some pts ∧ head pts = Some (x0, y0).
Proof.
  intros Hx0 Hy0 Hx1 Hy1 Hne. unfold draw_line_points.
  set (dx := std_abs (wrap (x1 - x0))).
  set (dy := wrap (- std_abs (wrap (y1 - y0)))).
  set (sx := if x0 <? x1 then 1 else -1).
  set (sy := if y0 <? y1 then 1 else -1).
  assert (0 ≤ dx) as Hdx.
  { subst dx. unfold std_abs. pose proof (wrap_range (x1 - x0)).
    rewrite wrap_id; lia. }
  assert (dy ≤ 0) as Hdy.
  { subst dy. unfold std_abs. pose proof (wrap_range (y1 - y0)).
    destruct (Z.eq_dec (wrap (y1 - y0)) (- 2 ^ 31)) as [->|].
    - vm_compute. discriminate.
    - rewrite (wrap_id (Z.abs _)) by lia. rewrite wrap_id; lia. }
  pose proof (steps_left_nonneg sx x1 x0). pose proof (steps_left_nonneg sy y1 y0).
  destruct (line_points_end dx dy sx sy x1 y1
              (Z.to_nat (steps_left sx x1 x0 + steps_left sy y1 y0))
              (x0, y0, wrap (dx + dy))) as (pts & Hpts & Hhd); try done; try lia.
  - subst sx. destruct (x0 <? x1); auto.
  - subst sy. destruct (y0 <? y1); auto.
  - cbn [fst snd]. lia.
  - eauto.
Qed.

Example draw_line_points_horizontal :
  draw_line_points 4 0 0 3 0 = Some [(0, 0); (1, 0); (2, 0); (3, 0)].
Proof. reflexivity. Qed.

Example draw_line_points_diagonal :
  draw_line_points 5 0 4 4 0 = Some [(0, 4); (1, 3); (2, 2); (3, 1); (4, 0)].
Proof. reflexivity. Qed.

(** C8, as amended: for [LONG] end points whose 32-bit difference
    [x1 - x0] is not [-2^31], [draw_line] returns: within some number of
    iterations its loop ends, having called [set_pixel] at each point of a
    list that starts with [(x0, y0)].  When the end points coincide the
    list is that one point.  When the coordinates differ by less than
    [2^29], so that nothing overflows, the list ends with [(x1, y1)] and
    has at most [|x1 - x0| + |y1 - y0| + 1] points. *)
Theorem draw_line_terminates (img : BMPImage) (x0 y0 x1 y1 : Z) (clr : Pixel) :
  is_LONG x0 → is_LONG y0 → is_LONG x1 → is_LONG y1 →
  wrap (x1 - x0) ≠ - 2 ^ 31 →
  ∃ fuel pts,
    draw_line fuel img x0 y0 x1 y1 clr = Some (plot img pts clr) ∧
    head pts = Some (x0, y0) ∧
    (x0 = x1 → y0 = y1 → pts = [(x0, y0)]) ∧
    (Z.abs (x1 - x0) < 2 ^ 29 → Z.abs (y1 - y0) < 2 ^ 29 →
     last pts = Some (x1, y1) ∧
     Z.of_nat (length pts) ≤ Z.abs (x1 - x0) + Z.abs (y1 - y0) + 1).
Proof.
  intros Hx0 Hy0 Hx1 Hy1 Hne.
  destruct (Z_lt_dec (Z.abs (x1 - x0)) (2 ^ 29)) as [Hdx|Hdx];
    [destruct (Z_lt_dec (Z.abs (y1 - y0)) (2 ^ 29)) as [Hdy|Hdy]|].
  - assert (line_in_range x0 y0 x1 y1) as Hr by (unfold line_in_range, is_LONG in *; lia).
    destruct (draw_line_points_reach x0 y0 x1 y1 Hr) as (pts & Hpts & Hhd & Hlast & Hlen).
    eexists _, pts. split; [by apply draw_line_loop_points|].
    split; [done|]. split; [|done].
    intros -> ->. rewrite !Z.sub_diag in Hlen. cbn in Hlen.
    destruct pts as [|pt [|pt' pts]]; [done| |cbn [length] in Hlen; lia].
    by injection Hhd as ->.
  - destruct (draw_line_points_end x0 y0 x1 y1) as (fuel & pts & Hpts & Hhd); try done.
    exists fuel, pts. split; [by apply draw_line_loop_points|].
    split; [done|]. split; [|lia].
    intros _ E. rewrite E, Z.sub_diag in Hdy. cbn in Hdy. lia.
  - destruct (draw_line_points_end x0 y0 x1 y1) as (fuel & pts & Hpts & Hhd); try done.
    exists fuel, pts. split; [by apply draw_line_loop_points|].
    split; [done|]. split; [|lia].
    intros E _. rewrite E, Z.sub_diag in Hdx. cbn in Hdx. lia.
Qed.

(** An instance: the diagonal from (0, 4) to (4, 0). *)
Lemma draw_line_terminates_witness :
  ∃ fuel pts,
    draw_line fuel black_1x1_decoded 0 4 4 0 black
    = Some (plot black_1x1_decoded pts black) ∧
    head pts = Some (0, 4) ∧
    (0 = 4 → 4 = 0 → pts = [(0, 4)]) ∧
    (Z.abs (4 - 0) < 2 ^ 29 → Z.abs (0 - 4) < 2 ^ 29 →
     last pts = Some (4, 0) ∧
     Z.of_nat (length pts) ≤ Z.abs (4 - 0) + Z.abs (0 - 4) + 1).
Proof.
  apply (draw_line_terminates black_1x1_decoded 0 4 4 0 black);
    unfold is_LONG; try lia.
  vm_compute. discriminate.
Defined.

Lemma draw_line_loop_stuck dx dy sx sy x1 y1 clr st img :
  line_step dx dy sx sy x1 y1 st = Some st →
  set_pixel img st.1.1 st.1.2 clr = Ok img →
  ∀ fuel, draw_line_loop fuel dx dy sx sy x1 y1 clr st img = None.
Proof.
  intros Hstep Hset fuel. induction fuel as [|fuel IH]; [done|].
  cbn [draw_line_loop]. by rewrite Hset, Hstep.
Qed.

(** C8 as stated fails at the edge of the [LONG] range.  From (0, 0) to
    (-2147483648, 1): [dx = std::abs(-2147483648) = -2147483648],
    [dy = -1], [err] wraps to 2147483647 and [e2] to -2; neither
    [e2 >= dy] nor [e2 <= dx] holds, so an iteration changes nothing and
    the loop never ends.  From (0, 0) to (2147483647, 0): [e2] wraps to
    -2, the x step is skipped and the y test breaks out of the loop after
    the first point, far from the end point. *)
Lemma draw_line_overflow_counterexample :
  read_image black black_1x1 = Ok black_1x1_decoded ∧
  (¬ ∃ fuel, draw_line fuel black_1x1_decoded 0 0 (-2147483648) 1 black ≠ None) ∧
  draw_line_points 1 0 0 2147483647 0 = Some [(0, 0)].
Proof.
  split; [vm_compute; reflexivity|]. split; [|reflexivity].
  intros [fuel H]. apply H. unfold draw_line.
  apply draw_line_loop_stuck; vm_compute; reflexivity.
Qed.

(** ** What the editor leaves alone *)



Example read_image_bottom_up_1x2 :
  read_image black bottom_up_1x2 = Ok bottom_up_1x2_decoded.
Proof. vm_compute. reflexivity. Qed.


(** * Further properties of the program *)

(** ** The reader on other files *)

Lemma le_val_nonneg bs : 0 ≤ le_val bs.
Proof.
  induction bs as [|c bs IH]; cbn [le_val]; [done|].
  pose proof (byte_val_range c). lia.
Qed.

Lemma walkable_bmp_unfold f :
  walkable_bmp f = true →
  30 ≤ Z.of_nat (length f) ∧ bfType f = 0x4D42 ∧ 0 ≤ bfOffBits f ∧
  0 ≤ biWidth f ∧ - 2 ^ 31 < biHeight f ∧
  bfOffBits f + rows f * row_pitch (biWidth f) (biBitCount f) ≤ Z.of_nat (length f).
Proof.
  unfold walkable_bmp. intros H.
  pose proof (le_val_nonneg (take 4 (drop 10 f))) as Hoff.
  fold (field f 10 4) in Hoff. fold (bfOffBits f) in Hoff.
  repeat split; lia.
Qed.

Lemma valid_bmp_walkable f : valid_bmp f = true → walkable_bmp f = true.
Proof.
  intros H. apply valid_bmp_unfold in H as (? & ? & ? & ? & ? & ? & ?).
  unfold walkable_bmp. repeat (apply andb_true_intro; split); lia.
Qed.

Lemma row_pitch_nonneg w bc : 0 ≤ w → 0 ≤ row_pitch w bc.
Proof.
  intros Hw. unfold row_pitch. pose proof (padding_range w).
  destruct (bytes_per_pixel_cases bc); nia.
Qed.

(** The decoder on a file it can walk. *)
Lemma read_image_walk uninit f :
  walkable_bmp f = true →
  ∃ arr,
    read_image uninit f =
      Ok (mkImage arr (mkInfo (biWidth f) (rows f) (biBitCount f))
            (mkHeaders (take (Z.to_nat (bfOffBits f)) f) (bfOffBits f))) ∧
    shaped (rows f) (biWidth f) arr ∧
    ∀ i j, 0 ≤ i < rows f → 0 ≤ j < biWidth f →
      load arr (fixed_row (is_top_down f) (rows f) i) j
      = Ok (pixel_in uninit (biBitCount f) f
              (pixel_offset (bfOffBits f) (biWidth f) (biBitCount f) i j)).
Proof.
  intros Hv. apply walkable_bmp_unfold in Hv as (Hlen & Hsig & Hoff & Hw & Hh & Hfit).
  rewrite read_image_header by done. rewrite Hsig. cbn [negb Z.eqb Pos.eqb].
  pose proof (wrap_range (field f 22 4)) as Hr. fold (biHeight f) in Hr.
  assert ((if biHeight f <? 0 then (true, std_abs (biHeight f)) else (false, biHeight f))
          = (is_top_down f, rows f)) as ->.
  { unfold is_top_down, rows, std_abs.
    destruct (Z.ltb_spec (biHeight f) 0).
    - by rewrite wrap_id by lia.
    - by rewrite Z.abs_eq by lia. }
  pose proof (row_pitch_nonneg (biWidth f) (biBitCount f) Hw) as Hpitch.
  destruct (read_array_pixels_ok uninit f (bfOffBits f) (biWidth f) (rows f)
              (biBitCount f) (is_top_down f) Hoff Hw ltac:(unfold rows; lia) Hfit
              (mkStream f 30) eq_refl) as (arr & s' & -> & Hc & Hsh & Hpix).
  rewrite bind_Ok. rewrite read_headers_ok by (rewrite Hc; unfold rows in *; nia).
  rewrite bind_Ok, Hc. eauto.
Qed.

(** X1: [read_image] has no test of the bit count.  A file it can walk
    whose bit count is not 32 (8, 16, 24, ...) is decoded with three bytes
    per pixel: B, G and R are the bytes at the pixel's offset and [a] is
    left as the storage held it. *)
Theorem other_bit_counts_read_as_three_bytes (uninit : Pixel) (f : list BYTE) :
  walkable_bmp f = true → biBitCount f ≠ 32 →
  ∃ img,
    read_image uninit f = Ok img ∧
    bit_count (m_image_info img) = biBitCount f ∧
    ∀ i j, 0 ≤ i < rows f → 0 ≤ j < biWidth f →
      let pos := bfOffBits f
                 + i * (biWidth f * 3 + BMPImageReader.padding (biWidth f)) + j * 3 in
      pixel_at img (fixed_row (is_top_down f) (rows f) i) j
      = Ok (mkPixel (byte_at f (pos + 2)) (byte_at f (pos + 1)) (byte_at f pos)
                    (a uninit)).
Proof.
  intros Hv Hbc. destruct (read_image_walk uninit f Hv) as (arr & Hrd & _ & Hpix).
  eexists. split; [exact Hrd|]. split; [done|].
  intros i j Hi Hj pos. unfold pixel_at. cbn [m_array_pixels].
  rewrite (Hpix i j Hi Hj). unfold pixel_in, pixel_offset, row_pitch, bytes_per_pixel.
  replace (biBitCount f =? 32) with false by lia. done.
Qed.

Lemma other_bit_counts_read_as_three_bytes_witness :
  ∃ img,
    read_image black eight_bit_1x2 = Ok img ∧
    bit_count (m_image_info img) = biBitCount eight_bit_1x2 ∧
    ∀ i j, 0 ≤ i < rows eight_bit_1x2 → 0 ≤ j < biWidth eight_bit_1x2 →
      let pos := bfOffBits eight_bit_1x2
                 + i * (biWidth eight_bit_1x2 * 3
                        + BMPImageReader.padding (biWidth eight_bit_1x2)) + j * 3 in
      pixel_at img (fixed_row (is_top_down eight_bit_1x2) (rows eight_bit_1x2) i) j
      = Ok (mkPixel (byte_at eight_bit_1x2 (pos + 2)) (byte_at eight_bit_1x2 (pos + 1))
                    (byte_at eight_bit_1x2 pos) (a black)).
Proof.
  apply (other_bit_counts_read_as_three_bytes black eight_bit_1x2).
  - reflexivity.
  - vm_compute. discriminate.
Defined.

(** X2: a file with the signature and the 30 header bytes that announces a
    negative width and at least one row makes [read_image] throw
    [std::bad_array_new_length] from [new Pixel[m_width]]; no pixel is
    read and no image is returned. *)
Theorem negative_width_throws (uninit : Pixel) (f : list BYTE) :
  30 ≤ Z.of_nat (length f) → bfType f = 0x4D42 →
  biWidth f < 0 → biHeight f ≠ 0 →
  read_image uninit f = Throw BadArrayNewLength.
Proof.
  intros Hlen Hsig Hw Hh. rewrite read_image_header by done. rewrite Hsig.
  cbn [negb Z.eqb Pos.eqb].
  pose proof (wrap_range (field f 22 4)) as Hr. fold (biHeight f) in Hr.
  destruct (Z.ltb_spec (biHeight f) 0) as [Hneg|Hpos].
  - unfold read_array_pixels, new_array.
    destruct (Z.ltb_spec (std_abs (biHeight f)) 0) as [|Habs]; [done|].
    assert (0 < std_abs (biHeight f)).
    { unfold std_abs in *. destruct (Z.eq_dec (biHeight f) (- 2 ^ 31)) as [E|E].
      - rewrite E in Habs. vm_compute in Habs. done.
      - rewrite wrap_id by lia. lia. }
    by replace ((0 <? std_abs (biHeight f)) && (biWidth f <? 0)) with true by lia.
  - unfold read_array_pixels, new_array.
    replace (biHeight f <? 0) with false by lia.
    by replace ((0 <? biHeight f) && (biWidth f <? 0)) with true by lia.
Qed.

Lemma negative_width_throws_witness :
  read_image black negative_width = Throw BadArrayNewLength.
Proof.
  apply (negative_width_throws black negative_width).
  - vm_compute. discriminate.
  - reflexivity.
  - reflexivity.
  - vm_compute. discriminate.
Defined.

(** X3: a file with the signature and a header that announces no row is
    decoded, whatever width it announces, to an image without pixels; the
    preview of that image is empty and the file written for it is the
    header alone. *)
Theorem zero_height_gives_header_only (uninit : Pixel) (f : list BYTE) :
  30 ≤ Z.of_nat (length f) → bfType f = 0x4D42 → biHeight f = 0 →
  bfOffBits f ≤ Z.of_nat (length f) →
  ∃ img,
    read_image uninit f = Ok img ∧ m_array_pixels img = [] ∧
    BMPImage.height img = 0 ∧ BMPImage.width img = biWidth f ∧
    BMPImage.print_image img = Ok [] ∧
    write_image img = Ok (take (Z.to_nat (bfOffBits f)) f).
Proof.
  intros Hlen Hsig Hh Hoff. rewrite read_image_header by done. rewrite Hsig, Hh.
  cbn [negb Z.eqb Pos.eqb Z.ltb Z.compare].
  pose proof (le_val_nonneg (take 4 (drop 10 f))) as Hoff0.
  fold (field f 10 4) in Hoff0. fold (bfOffBits f) in Hoff0.
  unfold read_array_pixels, new_array. cbn [Z.ltb Z.compare andb].
  change (Z.to_nat 0) with 0%nat. cbn [replicate for_].
  rewrite !bind_Ok. cbv beta iota.
  rewrite read_headers_ok by (cbn [contents seekg_beg]; lia).
  rewrite bind_Ok. cbn [contents seekg_beg].
  eexists. split; [reflexivity|]. split; [reflexivity|].
  split; [reflexivity|]. split; [reflexivity|]. split; [reflexivity|].
  unfold write_image, ofs_write, BMPImage.height, BMPImage.width.
  cbn [m_hdrs m_image_info hdrs size height width].
  case_decide as Hl; [|rewrite length_take in Hl; lia].
  rewrite bind_Ok. change (Z.to_nat (to_size_t 0)) with 0%nat. cbn [for_ app].
  by rewrite take_take, Nat.min_id.
Qed.

Lemma zero_height_gives_header_only_witness :
  ∃ img,
    read_image black no_rows = Ok img ∧ m_array_pixels img = [] ∧
    BMPImage.height img = 0 ∧ BMPImage.width img = biWidth no_rows ∧
    BMPImage.print_image img = Ok [] ∧
    write_image img = Ok (take (Z.to_nat (bfOffBits no_rows)) no_rows).
Proof.
  apply (zero_height_gives_header_only black no_rows).
  - vm_compute. discriminate.
  - reflexivity.
  - reflexivity.
  - vm_compute. discriminate.
Defined.

(** ** Reading back what was written, byte by byte *)

Lemma byte_at_lookup (l : list BYTE) (z : Z) :
  0 ≤ z < Z.of_nat (length l) → l !! Z.to_nat z = Some (byte_at l z).
Proof.
  intros Hz. unfold byte_at.
  destruct (lookup_lt_is_Some_2 l (Z.to_nat z)) as [c ->]; [lia|done].
Qed.

Lemma byte_at_ext (l1 l2 : list BYTE) :
  length l1 = length l2 →
  (∀ z, 0 ≤ z < Z.of_nat (length l1) → byte_at l1 z = byte_at l2 z) →
  l1 = l2.
Proof.
  intros Hlen Hb. apply list_eq. intros n.
  destruct (decide (n < length l1)%nat) as [Hn|Hn].
  - rewrite <- (Nat2Z.id n), !byte_at_lookup by lia. f_equal. apply Hb. lia.
  - rewrite !lookup_ge_None_2; [done|lia..].
Qed.

Lemma byte_at_take (l : list BYTE) (n : nat) (z : Z) :
  0 ≤ z < Z.of_nat n → byte_at (take n l) z = byte_at l z.
Proof. intros Hz. unfold byte_at. rewrite lookup_take_lt; [done|lia]. Qed.

Lemma pixel_bytes_at_inj bc (l1 l2 : list BYTE) pos c :
  pixel_bytes_at bc l1 pos = pixel_bytes_at bc l2 pos →
  0 ≤ c < bytes_per_pixel bc → byte_at l1 (pos + c) = byte_at l2 (pos + c).
Proof.
  unfold pixel_bytes_at, bytes_per_pixel. destruct (bc =? 32); intros E Hc.
  - injection E as E0 E1 E2 E3.
    assert (c = 0 ∨ c = 1 ∨ c = 2 ∨ c = 3) as [->|[->|[->| ->]]] by lia;
      rewrite ?Z.add_0_r; done.
  - injection E as E0 E1 E2.
    assert (c = 0 ∨ c = 1 ∨ c = 2) as [->|[->| ->]] by lia;
      rewrite ?Z.add_0_r; done.
Qed.

(** The padding the writer puts after a row. *)
Lemma file_bytes_padding img i k :
  shaped (BMPImage.height img) (BMPImage.width img) (m_array_pixels img) →
  0 ≤ size (m_hdrs img) →
  (Z.to_nat (size (m_hdrs img)) ≤ length (hdrs (m_hdrs img)))%nat →
  0 ≤ i < BMPImage.height img →
  0 ≤ k < BMPImageReader.padding (BMPImage.width img) →
  byte_at (file_bytes img)
    (size (m_hdrs img)
     + i * row_pitch (BMPImage.width img) (bit_count (m_image_info img))
     + BMPImage.width img * bytes_per_pixel (bit_count (m_image_info img)) + k)
  = x00.
Proof.
  intros Hsh Hoff Hhd Hi Hk.
  set (w := BMPImage.width img) in *. set (h := BMPImage.height img) in *.
  set (bc := bit_count (m_image_info img)) in *. set (off := size (m_hdrs img)) in *.
  pose proof Hsh as (Hh & Hw & Hlen & Hrows).
  destruct (lookup_lt_is_Some_2 (m_array_pixels img) (Z.to_nat i)) as [row Hrow]; [lia|].
  pose proof (Hrows _ _ Hrow) as Hrl.
  assert (0 < bytes_per_pixel bc) as Hbpp by (destruct (bytes_per_pixel_cases bc); lia).
  pose proof (row_pitch_nonneg w bc Hw) as Hpitch.
  unfold byte_at, file_bytes. fold w bc off.
  replace (Z.to_nat (off + i * row_pitch w bc + w * bytes_per_pixel bc + k))
    with (length (take (Z.to_nat off) (hdrs (m_hdrs img)))
          + (Z.to_nat i * Z.to_nat (row_pitch w bc)
             + (length (concat (map (channels bc) row)) + Z.to_nat k)))%nat
    by (rewrite length_take, length_pixels_bytes; nia).
  rewrite <- lookup_drop, drop_app_length, <- lookup_drop.
  rewrite (drop_concat_chunk _ _ _ (row_bytes bc w row) (file_bytes_rows img Hsh))
    by (by rewrite list_lookup_fmap, Hrow).
  unfold row_bytes at 1. rewrite <- (assoc_L (++)).
  rewrite lookup_app_r, Nat.add_comm, Nat.add_sub by lia.
  rewrite lookup_app_l by (rewrite length_replicate; unfold BMPImageWriter.padding;
                           fold (BMPImageReader.padding w); lia).
  rewrite lookup_replicate_2; [done|].
  unfold BMPImageWriter.padding. fold (BMPImageReader.padding w). lia.
Qed.

(** Reading a canonical bottom-up file and writing the image gives the
    file back. *)
Lemma decode_encode_identity uninit f :
  valid_bmp f = true → is_top_down f = false → canonical_bmp f →
  ∃ img, read_image uninit f = Ok img ∧ write_image img = Ok f.
Proof.
  intros Hv Hbu [Hexact Hpad].
  destruct (decode_encode uninit f Hv)
    as (img & Hrd & Hinfo & Hhd & Hsh & Hpix & Hwr & Htake & _ & Eo & Ewd & _ & Eb & Hfp).
  exists img. split; [done|]. rewrite Hwr. f_equal.
  apply valid_bmp_unfold in Hv as (Hlen & Hsig & Hoff & Hw & Hh & Hbc & Hfit).
  set (off := bfOffBits f) in *. set (w := biWidth f) in *.
  set (bc := biBitCount f) in *. set (h := rows f) in *.
  assert (0 < bytes_per_pixel bc) as Hbpp by (destruct (bytes_per_pixel_cases bc); lia).
  pose proof (row_pitch_nonneg w bc Hw) as Hpitch.
  pose proof (padding_range w) as Hpr.
  assert ((Z.to_nat off ≤ length (hdrs (m_hdrs img)))%nat) as Hhdl
    by (rewrite Hhd; cbn; rewrite length_take; unfold h, rows in *; nia).
  assert (BMPImage.height img = h ∧ BMPImage.width img = w
          ∧ bit_count (m_image_info img) = bc ∧ size (m_hdrs img) = off)
    as (Eh & Ew & Ebc & Eoff)
    by (unfold BMPImage.height, BMPImage.width; rewrite Hinfo, Hhd; done).
  assert (shaped (BMPImage.height img) (BMPImage.width img) (m_array_pixels img))
    as Hsh' by (by rewrite Eh, Ew).
  pose proof (length_file_bytes img Hsh' ltac:(lia) ltac:(by rewrite Eoff)) as Hflen.
  rewrite Eh, Ew, Ebc, Eoff in Hflen.
  apply byte_at_ext; [lia|]. intros z Hz. rewrite Hflen in Hz.
  destruct (Z_lt_dec z off) as [Hlo|Hhi].
  - rewrite <- (byte_at_take (file_bytes img) (Z.to_nat off)) by lia.
    rewrite <- (byte_at_take f (Z.to_nat off)) by lia. by rewrite Htake.
  - assert (0 < row_pitch w bc) as Hpp.
    { destruct (Z.eq_dec (row_pitch w bc) 0) as [E|E]; [|lia].
      rewrite E, Z.mul_0_r in Hz. lia. }
    set (i := (z - off) / row_pitch w bc). set (q := (z - off) mod row_pitch w bc).
    pose proof (Z.div_mod (z - off) (row_pitch w bc) ltac:(lia)) as Hdm.
    pose proof (Z.mod_pos_bound (z - off) (row_pitch w bc) Hpp) as Hq.
    fold i q in Hdm, Hq.
    assert (0 ≤ i < h) as Hi.
    { split; [apply Z.div_pos; lia|]. apply Z.div_lt_upper_bound; [lia|]. nia. }
    replace z with (off + i * row_pitch w bc + q) by lia.
    destruct (Z_lt_dec q (w * bytes_per_pixel bc)) as [Hpx|Hpd].
    + set (j := q / bytes_per_pixel bc). set (c := q mod bytes_per_pixel bc).
      pose proof (Z.div_mod q (bytes_per_pixel bc) ltac:(lia)) as Hdm'.
      pose proof (Z.mod_pos_bound q (bytes_per_pixel bc) Hbpp) as Hc.
      fold j c in Hdm', Hc.
      assert (0 ≤ j < w) as Hj.
      { split; [apply Z.div_pos; lia|]. apply Z.div_lt_upper_bound; [lia|]. nia. }
      replace (off + i * row_pitch w bc + q)
        with (pixel_offset off w bc i j + c) by (unfold pixel_offset; lia).
      apply (pixel_bytes_at_inj bc); [|done].
      destruct (Hpix i j Hi Hj) as (p & Hp & Hpc).
      rewrite Hbu in Hp. unfold fixed_row in Hp.
      pose proof (Hfp i j p Hi Hj Hp) as Hout.
      unfold file_pixel in Hout, Hpc. fold off w bc in Hpc.
      rewrite Eo, Ewd, Eb in Hout. fold off w bc in Hout. congruence.
    + replace (off + i * row_pitch w bc + q)
        with (off + i * row_pitch w bc + w * bytes_per_pixel bc
              + (q - w * bytes_per_pixel bc)) by lia.
      assert (0 ≤ q - w * bytes_per_pixel bc < BMPImageReader.padding w) as Hk
        by (unfold row_pitch in Hq; lia).
      rewrite (Hpad i _ Hi Hk).
      pose proof (file_bytes_padding img i (q - w * bytes_per_pixel bc) Hsh'
                    ltac:(lia) ltac:(by rewrite Eoff)
                    ltac:(by rewrite Eh) ltac:(by rewrite Ew)) as Hz0.
      rewrite Ew, Ebc, Eoff in Hz0. exact Hz0.
Qed.

(** The file written for the image of a valid file: valid, with the
    header fields of the file read, and canonical. *)
Lemma written_file_canonical uninit f :
  valid_bmp f = true →
  ∃ img,
    read_image uninit f = Ok img ∧ write_image img = Ok (file_bytes img) ∧
    valid_bmp (file_bytes img) = true ∧
    is_top_down (file_bytes img) = is_top_down f ∧
    canonical_bmp (file_bytes img).
Proof.
  intros Hv.
  destruct (decode_encode uninit f Hv)
    as (img & Hrd & Hinfo & Hhd & Hsh & _ & Hwr & _ & Hv' & Eo & Ew & Eh & Eb & _).
  apply valid_bmp_unfold in Hv as (Hlen & Hsig & Hoff & Hw & Hh & Hbc & Hfit).
  exists img. split; [done|]. split; [done|]. split; [done|].
  split; [unfold is_top_down; by rewrite Eh|].
  assert ((Z.to_nat (bfOffBits f) ≤ length (take (Z.to_nat (bfOffBits f)) f))%nat) as Hhdl.
  { pose proof (row_pitch_nonneg (biWidth f) (biBitCount f) Hw).
    rewrite length_take. unfold rows in *. nia. }
  assert (shaped (BMPImage.height img) (BMPImage.width img) (m_array_pixels img))
    as Hsh' by (unfold BMPImage.height, BMPImage.width; by rewrite Hinfo).
  unfold canonical_bmp, rows. rewrite Eo, Ew, Eh, Eb. fold (rows f). split.
  - pose proof (length_file_bytes img Hsh') as Hl.
    unfold BMPImage.height, BMPImage.width in Hl. rewrite Hinfo, Hhd in Hl.
    apply Hl; [cbn; lia|done].
  - intros i k Hi Hk.
    pose proof (file_bytes_padding img i k Hsh') as Hp.
    unfold BMPImage.height, BMPImage.width in Hp. rewrite Hinfo, Hhd in Hp.
    apply Hp; cbn; (done || lia).
Qed.

(** X4: reading a valid bottom-up file that ends with its last row and
    whose padding bytes are zero, and writing the image unchanged, gives
    the file back byte for byte. *)
Theorem unchanged_file_written_back (uninit : Pixel) (f : list BYTE) :
  valid_bmp f = true → is_top_down f = false → canonical_bmp f →
  ∃ img, read_image uninit f = Ok img ∧ write_image img = Ok f.
Proof. apply decode_encode_identity. Qed.

Lemma unchanged_file_written_back_witness :
  ∃ img, read_image black bottom_up_1x2 = Ok img ∧ write_image img = Ok bottom_up_1x2.
Proof.
  apply (unchanged_file_written_back black bottom_up_1x2); try reflexivity.
  split; [reflexivity|]. intros i k Hi Hk.
  change (rows bottom_up_1x2) with 2 in Hi.
  change (BMPImageReader.padding (biWidth bottom_up_1x2)) with 1 in Hk.
  assert (k = 0) as -> by lia.
  assert (i = 0 ∨ i = 1) as [-> | ->] by lia; reflexivity.
Defined.

(** X5: writing is stable after one pass.  The file written for the image
    of a valid bottom-up file has no byte after its last row and zero
    padding, whatever the file read had there; reading it and writing
    again gives the same bytes. *)
Theorem second_pass_writes_same_file (u1 u2 : Pixel) (f : list BYTE) :
  valid_bmp f = true → is_top_down f = false →
  ∃ img out img',
    read_image u1 f = Ok img ∧ write_image img = Ok out ∧ canonical_bmp out ∧
    read_image u2 out = Ok img' ∧ write_image img' = Ok out.
Proof.
  intros Hv Hbu.
  destruct (written_file_canonical u1 f Hv) as (img & Hrd & Hwr & Hv' & Htd & Hcan).
  destruct (decode_encode_identity u2 (file_bytes img) Hv' ltac:(congruence) Hcan)
    as (img' & Hrd' & Hwr').
  by exists img, (file_bytes img), img'.
Qed.

Lemma second_pass_writes_same_file_witness :
  ∃ img out img',
    read_image black bottom_up_1x2_noisy = Ok img ∧ write_image img = Ok out ∧
    canonical_bmp out ∧
    read_image black out = Ok img' ∧ write_image img' = Ok out.
Proof.
  apply (second_pass_writes_same_file black black bottom_up_1x2_noisy); reflexivity.
Defined.

(** X6: for a valid file stored top-down, decoding, encoding and decoding
    again gives the rows in the opposite order: row [height - 1 - row] of
    the second array holds the pixel (B, G, R, and A at 32 bits) that the
    first array holds in row [row]. *)
Theorem roundtrip_top_down_mirrors (u1 u2 : Pixel) (f : list BYTE) :
  valid_bmp f = true → is_top_down f = true →
  ∃ img out img',
    read_image u1 f = Ok img ∧ write_image img = Ok out ∧
    read_image u2 out = Ok img' ∧
    ∀ row col, 0 ≤ row < BMPImage.height img → 0 ≤ col < BMPImage.width img →
      ∃ p p',
        pixel_at img row col = Ok p ∧
        pixel_at img' (BMPImage.height img - 1 - row) col = Ok p' ∧
        channels (bit_count (m_image_info img)) p'
        = channels (bit_count (m_image_info img)) p.
Proof.
  intros Hv Htd.
  destruct (roundtrip_rows u1 u2 f Hv)
    as (img & out & img' & Hrd & Hwr & Hrd' & _ & _ & Hpix).
  rewrite Htd in Hpix. by exists img, out, img'.
Qed.

Lemma roundtrip_top_down_mirrors_witness :
  ∃ img out img',
    read_image black top_down_1x2 = Ok img ∧ write_image img = Ok out ∧
    read_image black out = Ok img' ∧
    ∀ row col, 0 ≤ row < BMPImage.height img → 0 ≤ col < BMPImage.width img →
      ∃ p p',
        pixel_at img row col = Ok p ∧
        pixel_at img' (BMPImage.height img - 1 - row) col = Ok p' ∧
        channels (bit_count (m_image_info img)) p'
        = channels (bit_count (m_image_info img)) p.
Proof.
  apply (roundtrip_top_down_mirrors black black top_down_1x2); reflexivity.
Defined.

(** X7: two passes undo each other.  For a valid file of either row order,
    decoding, encoding, decoding, encoding and decoding gives at every row
    and column the pixel (B, G, R, and A at 32 bits) of the first
    decoding. *)
Theorem two_passes_restore_rows (u1 u2 u3 : Pixel) (f : list BYTE) :
  valid_bmp f = true →
  ∃ img out img' out' img'',
    read_image u1 f = Ok img ∧ write_image img = Ok out ∧
    read_image u2 out = Ok img' ∧ write_image img' = Ok out' ∧
    read_image u3 out' = Ok img'' ∧
    ∀ row col, 0 ≤ row < BMPImage.height img → 0 ≤ col < BMPImage.width img →
      ∃ p p'',
        pixel_at img row col = Ok p ∧ pixel_at img'' row col = Ok p'' ∧
        channels (bit_count (m_image_info img)) p''
        = channels (bit_count (m_image_info img)) p.
Proof.
  intros Hv.
  destruct (roundtrip_rows u1 u2 f Hv)
    as (img & out & img' & Hrd & Hwr & Hrd' & Hinfo & _ & Hpix).
  destruct (written_file_canonical u1 f Hv) as (img0 & Hrd0 & Hwr0 & Hv' & Htd & _).
  rewrite Hrd in Hrd0. injection Hrd0 as <-.
  rewrite Hwr in Hwr0. injection Hwr0 as ->.
  destruct (roundtrip_rows u2 u3 (file_bytes img) Hv')
    as (img1 & out' & img'' & Hrd1 & Hwr' & Hrd'' & _ & _ & Hpix').
  rewrite Hrd' in Hrd1. injection Hrd1 as <-.
  exists img, (file_bytes img), img', out', img''. repeat split; try done.
  intros row col Hrow Hcol.
  destruct (Hpix row col Hrow Hcol) as (p & p' & Hp & Hp' & Hc).
  unfold BMPImage.height, BMPImage.width in Hpix'. rewrite Hinfo, Htd in Hpix'.
  fold (BMPImage.height img) (BMPImage.width img) in Hpix'.
  destruct (Hpix' (if is_top_down f then BMPImage.height img - 1 - row else row) col)
    as (q & q'' & Hq & Hq'' & Hc'); [destruct (is_top_down f); lia|done|].
  replace (if is_top_down f
           then BMPImage.height img - 1
                - (if is_top_down f then BMPImage.height img - 1 - row else row)
           else if is_top_down f then BMPImage.height img - 1 - row else row)
    with row in Hq'' by (destruct (is_top_down f); lia).
  exists p, q''. split; [done|]. split; [done|].
  rewrite Hp' in Hq. injection Hq as <-. congruence.
Qed.

Lemma two_passes_restore_rows_witness :
  ∃ img out img' out' img'',
    read_image black top_down_1x2 = Ok img ∧ write_image img = Ok out ∧
    read_image black out = Ok img' ∧ write_image img' = Ok out' ∧
    read_image black out' = Ok img'' ∧
    ∀ row col, 0 ≤ row < BMPImage.height img → 0 ≤ col < BMPImage.width img →
      ∃ p p'',
        pixel_at img row col = Ok p ∧ pixel_at img'' row col = Ok p'' ∧
        channels (bit_count (m_image_info img)) p''
        = channels (bit_count (m_image_info img)) p.
Proof.
  apply (two_passes_restore_rows black black black top_down_1x2); reflexivity.
Defined.

(** ** What the editor paints *)

Lemma bind_Ok_r {A} (m : outcome A) : (m ≫= Ok) = m.
Proof. by destruct m. Qed.

Lemma plot_app img pts1 pts2 clr :
  plot img (pts1 ++ pts2) clr = (img1 ← plot img pts1 clr; plot img1 pts2 clr).
Proof.
  revert img. induction pts1 as [|pt pts1 IH]; intros img; [done|].
  cbn [app plot]. destruct (set_pixel img pt.1 pt.2 clr) as [img1| |]; [|done..].
  rewrite !bind_Ok. apply IH.
Qed.

(** An operation that ends within the fuel has called [set_pixel] at its
    points, in order. *)
Lemma run_edit_plot fuel op img pts :
  edit_points fuel op = Some pts →
  run_edit fuel op img = Some (plot img pts (edit_colour op)).
Proof.
  destruct op as [x y color|x0 y0 x1 y1 clr|x1 y1 x2 y2 color];
    cbn [run_edit edit_points edit_colour].
  - intros [= <-]. cbn [plot fst snd].
    by destruct (set_pixel img x y color).
  - apply draw_line_loop_points.
  - unfold draw_diagonal_cross.
    destruct (draw_line_points fuel x1 y1 x2 y2) as [pts1|] eqn:H1; [|done].
    destruct (draw_line_points fuel x1 y2 x2 y1) as [pts2|] eqn:H2; [|done].
    intros [= <-]. unfold draw_line.
    rewrite (draw_line_loop_points _ _ _ _ _ _ _ color _ img _ H1), plot_app.
    destruct (plot img pts1 color) as [img1| |]; [|done..].
    rewrite bind_Ok. by apply draw_line_loop_points.
Qed.

Lemma run_edit_Ok fuel op img img' :
  run_edit fuel op img = Some (Ok img') →
  ∃ pts, edit_points fuel op = Some pts ∧ plot img pts (edit_colour op) = Ok img'.
Proof.
  destruct op as [x y color|x0 y0 x1 y1 clr|x1 y1 x2 y2 color];
    cbn [run_edit edit_points edit_colour].
  - intros [= H]. eexists. split; [done|]. cbn [plot fst snd]. by rewrite H.
  - apply draw_line_loop_Ok.
  - unfold draw_diagonal_cross.
    destruct (draw_line fuel img x1 y1 x2 y2 color) as [[img1| |]|] eqn:H1; [|done..].
    intros H2.
    apply draw_line_loop_Ok in H1 as (pts1 & Hp1 & Hplot1).
    apply draw_line_loop_Ok in H2 as (pts2 & Hp2 & Hplot2).
    exists (pts1 ++ pts2). unfold draw_line_points. rewrite Hp1, Hp2.
    split; [done|]. by rewrite plot_app, Hplot1.
Qed.

Lemma in_guard_info img img' x y :
  m_image_info img' = m_image_info img → in_guard img' x y ↔ in_guard img x y.
Proof. intros H. unfold in_guard, BMPImage.width, BMPImage.height. by rewrite H. Qed.

(** After [plot], every listed point that passes the test of [set_pixel]
    has the colour. *)
Lemma plot_paints pts : ∀ img clr img',
  plot img pts clr = Ok img' →
  ∀ x y, (x, y) ∈ pts → in_guard img x y → pixel_at img' x y = Ok clr.
Proof.
  induction pts as [|[x0 y0] pts IH]; intros img clr img' Hplot x y Hin Hg.
  - by apply elem_of_nil in Hin.
  - cbn [plot fst snd] in Hplot. apply bind_Ok_inv in Hplot as (img1 & Hset & Hplot).
    destruct (set_pixel_frame _ _ _ _ _ Hset) as (Hi1 & _ & _ & Hpaint & _).
    destruct (decide ((x, y) ∈ pts)) as [Hrest|Hrest].
    + apply (IH img1 clr img' Hplot x y Hrest). by apply (in_guard_info img).
    + apply elem_of_cons in Hin as [[= -> ->]|Hin]; [|done].
      destruct (plot_frame pts img1 clr img' Hplot) as (_ & _ & Hf).
      rewrite Hf by auto. auto.
Qed.

(** [plot] stays inside the array when every listed point that passes
    the test of [set_pixel] is a position of the array. *)
Lemma plot_in_bounds pts : ∀ img clr,
  shaped (BMPImage.height img) (BMPImage.width img) (m_array_pixels img) →
  (∀ x y, (x, y) ∈ pts → in_guard img x y →
     0 ≤ x < BMPImage.height img ∧ 0 ≤ y < BMPImage.width img) →
  ∃ img',
    plot img pts clr = Ok img' ∧
    m_image_info img' = m_image_info img ∧ m_hdrs img' = m_hdrs img ∧
    shaped (BMPImage.height img) (BMPImage.width img) (m_array_pixels img').
Proof.
  induction pts as [|[x y] pts IH]; intros img clr Hsh Hin.
  - by exists img.
  - cbn [plot fst snd].
    assert (∃ img1, set_pixel img x y clr = Ok img1 ∧
                    m_image_info img1 = m_image_info img ∧ m_hdrs img1 = m_hdrs img ∧
                    shaped (BMPImage.height img) (BMPImage.width img)
                      (m_array_pixels img1)) as (img1 & Hset & Hi1 & Hh1 & Hsh1).
    { destruct (in_guard_dec img x y) as [Hg|Hg].
      - rewrite set_pixel_guarded by done. unfold set_pixel_at.
        destruct (Hin x y (list_elem_of_here _ _) Hg) as [Hx Hy].
        destruct (store_in_bounds _ _ _ x y clr Hsh Hx Hy) as [arr' Hst].
        rewrite Hst, bind_Ok. eexists. split; [done|]. cbn.
        split; [done|]. split; [done|]. by eapply store_shaped.
      - rewrite set_pixel_unguarded by done. by exists img. }
    rewrite Hset, bind_Ok.
    destruct (IH img1 clr) as (img' & Hplot & Hi & Hh & Hsh').
    + unfold BMPImage.height, BMPImage.width. by rewrite Hi1.
    + intros x' y' Hin' Hg'. unfold BMPImage.height, BMPImage.width. rewrite Hi1.
      apply Hin; [by apply list_elem_of_further|]. by apply (in_guard_info img img1).
    + exists img'. split; [done|]. split; [congruence|]. split; [congruence|].
      unfold BMPImage.height, BMPImage.width in *. by rewrite Hi1 in Hsh'.
Qed.

(** X8: an operation of the editor that returns has given its colour to
    every pixel at coordinates it passed to [set_pixel] that pass the
    bounds test. *)
Theorem editor_paints (fuel : nat) (op : edit) (img img' : BMPImage) :
  run_edit fuel op img = Some (Ok img') →
  ∃ pts,
    edit_points fuel op = Some pts ∧
    ∀ x y, (x, y) ∈ pts → in_guard img x y → pixel_at img' x y = Ok (edit_colour op).
Proof.
  intros H. apply run_edit_Ok in H as (pts & Hpts & Hplot).
  exists pts. split; [done|]. by apply (plot_paints pts img).
Qed.

Lemma editor_paints_witness :
  ∃ pts,
    edit_points 3 (DrawDiagonalCross 0 0 1 1 black) = Some pts ∧
    ∀ x y, (x, y) ∈ pts → in_guard square_2x2_decoded x y →
      pixel_at (mkImage [[black; black]; [black; black]]
                  (mkInfo 2 2 24) (mkHeaders (bmp_header 2 2 24) 54)) x y
      = Ok (edit_colour (DrawDiagonalCross 0 0 1 1 black)).
Proof.
  apply (editor_paints 3 (DrawDiagonalCross 0 0 1 1 black) square_2x2_decoded).
  reflexivity.
Defined.

(** X9: on an image whose array is square (as many rows as columns, as
    its width and height say) no operation of the editor leaves the
    array: an operation whose loop ends within the fuel returns an image,
    with the same header and information and an array of the same
    dimensions. *)
Theorem editor_stays_in_square_array (fuel : nat) (op : edit) (img : BMPImage)
    (pts : list (Z * Z)) :
  shaped (BMPImage.height img) (BMPImage.width img) (m_array_pixels img) →
  BMPImage.width img = BMPImage.height img →
  edit_points fuel op = Some pts →
  ∃ img',
    run_edit fuel op img = Some (Ok img') ∧
    m_image_info img' = m_image_info img ∧ m_hdrs img' = m_hdrs img ∧
    shaped (BMPImage.height img) (BMPImage.width img) (m_array_pixels img').
Proof.
  intros Hsh Hsq Hpts. rewrite (run_edit_plot fuel op img pts Hpts).
  destruct (plot_in_bounds pts img (edit_colour op) Hsh) as (img' & Hplot & H).
  - intros x y _ [Hx Hy]. lia.
  - exists img'. by rewrite Hplot.
Qed.

Lemma editor_stays_in_square_array_witness :
  ∃ img',
    run_edit 3 (DrawDiagonalCross 0 0 1 1 black) square_2x2_decoded = Some (Ok img') ∧
    m_image_info img' = m_image_info square_2x2_decoded ∧
    m_hdrs img' = m_hdrs square_2x2_decoded ∧
    shaped (BMPImage.height square_2x2_decoded) (BMPImage.width square_2x2_decoded)
      (m_array_pixels img').
Proof.
  apply (editor_stays_in_square_array 3 (DrawDiagonalCross 0 0 1 1 black)
           square_2x2_decoded [(0, 0); (1, 1); (0, 1); (1, 0)]).
  - repeat split; try done.
    intros [|[|i]] row; cbn; [by intros [= <-]..|done].
  - reflexivity.
  - reflexivity.
Defined.

(** X10: for end points whose coordinates differ by less than [2^29],
    both loops of [draw_diagonal_cross] end, and what it does is
    [set_pixel] along two lines: the first starts at [(x1, y1)] and ends
    at [(x2, y2)], the second starts at [(x1, y2)] and ends at [(x2, y1)];
    all four corners of the rectangle are passed to [set_pixel]. *)
Theorem cross_reaches_four_corners (img : BMPImage) (x1 y1 x2 y2 : Z) (color : Pixel) :
  line_in_range x1 y1 x2 y2 →
  ∃ fuel pts1 pts2,
    draw_diagonal_cross fuel img x1 y1 x2 y2 color
    = Some (plot img (pts1 ++ pts2) color) ∧
    head pts1 = Some (x1, y1) ∧ last pts1 = Some (x2, y2) ∧
    head pts2 = Some (x1, y2) ∧ last pts2 = Some (x2, y1) ∧
    Z.of_nat fuel = Z.abs (x2 - x1) + Z.abs (y2 - y1) + 1.
Proof.
  intros Hr.
  assert (line_in_range x1 y2 x2 y1) as Hr' by (unfold line_in_range in *; lia).
  destruct (draw_line_points_reach x1 y1 x2 y2 Hr) as (pts1 & Hp1 & Hh1 & Hl1 & _).
  destruct (draw_line_points_reach x1 y2 x2 y1 Hr') as (pts2 & Hp2 & Hh2 & Hl2 & _).
  replace (Z.abs (x2 - x1) + Z.abs (y1 - y2))
    with (Z.abs (x2 - x1) + Z.abs (y2 - y1)) in Hp2 by lia.
  exists (S (Z.to_nat (Z.abs (x2 - x1) + Z.abs (y2 - y1)))), pts1, pts2.
  split; [|repeat split; (done || lia)].
  apply (run_edit_plot _ (DrawDiagonalCross x1 y1 x2 y2 color) img).
  cbn [edit_points]. by rewrite Hp1, Hp2.
Qed.

Lemma cross_reaches_four_corners_witness :
  ∃ fuel pts1 pts2,
    draw_diagonal_cross fuel square_2x2_decoded 40 60 160 120 black
    = Some (plot square_2x2_decoded (pts1 ++ pts2) black) ∧
    head pts1 = Some (40, 60) ∧ last pts1 = Some (160, 120) ∧
    head pts2 = Some (40, 120) ∧ last pts2 = Some (160, 60) ∧
    Z.of_nat fuel = Z.abs (160 - 40) + Z.abs (120 - 60) + 1.
Proof.
  apply (cross_reaches_four_corners square_2x2_decoded 40 60 160 120 black).
  unfold line_in_range. lia.
Defined.

(** ** The geometry of a line *)

Section line_geometry.
Variables x0 y0 x1 y1 : Z.
Hypothesis Hrange : line_in_range x0 y0 x1 y1.

Let dx := Z.abs (x1 - x0).
Let ady := Z.abs (y1 - y0).
Let sx := if x0 <? x1 then 1 else -1.
Let sy := if y0 <? y1 then 1 else -1.

(** An iteration of the loop away from the end point, in full: the x step
    is taken when [2 * err >= dy], the y step when [2 * err <= dx], at
    least one of them is, and neither inner [break] is. *)
Lemma line_step_exact x y err rx ry :
  line_inv x0 y0 x1 y1 (x, y, err) rx ry → 0 < rx + ry →
  ∃ xs ys : bool,
    xs = (2 * err >=? - ady) ∧ ys = (2 * err <=? dx) ∧
    line_step dx (- ady) sx sy x1 y1 (x, y, err)
    = Some (x + (if xs then sx else 0), y + (if ys then sy else 0),
            err + (if xs then - ady else 0) + (if ys then dx else 0)) ∧
    (xs = true → 1 ≤ rx) ∧ (ys = true → 1 ≤ ry) ∧ (xs = true ∨ ys = true) ∧
    line_inv x0 y0 x1 y1
      (x + (if xs then sx else 0), y + (if ys then sy else 0),
       err + (if xs then - ady else 0) + (if ys then dx else 0))
      (rx - (if xs then 1 else 0)) (ry - (if ys then 1 else 0)).
Proof.
  unfold line_inv. fold dx ady sx sy. cbn [fst snd].
  intros (Hrx & Hry & Hx & Hy & Herr & Hb) Hpos.
  destruct Hrange as ((Hx0 & Hy0) & (Hx1 & Hy1) & Hdx & Hdy).
  fold dx in Hdx. fold ady in Hdy.
  assert (sx = 1 ∧ x0 < x1 ∨ sx = -1 ∧ x1 ≤ x0) as Hsx
    by (subst sx; destruct (Z.ltb_spec x0 x1); lia).
  assert (sy = 1 ∧ y0 < y1 ∨ sy = -1 ∧ y1 ≤ y0) as Hsy
    by (subst sy; destruct (Z.ltb_spec y0 y1); lia).
  assert (0 ≤ dx ∧ 0 ≤ ady) as [Hdx0 Hady0] by (split; apply Z.abs_nonneg).
  assert (0 ≤ rx * ady) as HA0 by (apply Z.mul_nonneg_nonneg; [apply Hrx|done]).
  assert (0 ≤ ry * dx) as HB0 by (apply Z.mul_nonneg_nonneg; [apply Hry|done]).
  assert (1 ≤ rx → ady ≤ rx * ady) as HA1.
  { intros H1. rewrite <- (Z.mul_1_l ady) at 1. by apply Z.mul_le_mono_nonneg_r. }
  assert (1 ≤ ry → dx ≤ ry * dx) as HB1.
  { intros H1. rewrite <- (Z.mul_1_l dx) at 1. by apply Z.mul_le_mono_nonneg_r. }
  assert (rx = 0 → rx * ady = 0) as HAz by (by intros ->).
  assert (ry = 0 → ry * dx = 0) as HBz by (by intros ->).
  assert (sx * rx = rx ∨ sx * rx = - rx) as Hsr by (destruct Hsx as [[-> _]|[-> _]]; lia).
  assert (sy * ry = ry ∨ sy * ry = - ry) as Hsr' by (destruct Hsy as [[-> _]|[-> _]]; lia).
  assert (- 2 ^ 31 ≤ x < 2 ^ 31 ∧ - 2 ^ 31 ≤ y < 2 ^ 31) as [Hxr Hyr].
  { subst dx ady. destruct Hsx as [[-> ?]|[-> ?]], Hsy as [[-> ?]|[-> ?]]; lia. }
  unfold line_step.
  rewrite (wrap_id (2 * err)) by lia.
  destruct (Z.eqb_spec x x1) as [Ex|Ex], (Z.eqb_spec y y1) as [Ey|Ey];
    cbn [andb]; cbv iota.
  - lia.
  - (* x arrived, y did not: only the y step can be taken *)
    assert (rx = 0) as -> by lia. assert (1 ≤ ry) by lia.
    exists false, true.
    replace (2 * err >=? - ady) with false by lia. cbn.
    replace (2 * err <=? dx) with true by lia.
    destruct (Z.eqb_spec y y1); [done|].
    rewrite (wrap_id (y + sy)), (wrap_id (err + dx)) by lia.
    rewrite !Z.add_0_r, Z.sub_0_r.
    split; [done|]. split; [done|]. split; [done|].
    split; [done|]. split; [done|]. split; [auto|].
    repeat split; try lia; destruct Hsy as [[-> ?]|[-> ?]]; lia.
  - (* y arrived, x did not: only the x step can be taken *)
    assert (ry = 0) as -> by lia. assert (1 ≤ rx) by lia.
    exists true, false.
    replace (2 * err >=? - ady) with true by lia.
    destruct (Z.eqb_spec x x1); [done|].
    rewrite (wrap_id (x + sx)), (wrap_id (err + - ady)) by lia. cbn.
    replace (2 * err <=? dx) with false by lia.
    rewrite !Z.add_0_r, Z.sub_0_r.
    split; [done|]. split; [done|]. split; [done|].
    split; [done|]. split; [done|]. split; [auto|].
    repeat split; try lia; destruct Hsx as [[-> ?]|[-> ?]]; lia.
  - assert (1 ≤ rx) by lia. assert (1 ≤ ry) by lia.
    destruct (Z.geb_spec (2 * err) (- ady)) as [Hge|Hlt].
    + destruct (Z.eqb_spec x x1); [done|].
      rewrite (wrap_id (x + sx)), (wrap_id (err + - ady)) by lia. cbn.
      destruct (Z.leb_spec (2 * err) dx) as [Hle|Hgt].
      * destruct (Z.eqb_spec y y1); [done|].
        rewrite (wrap_id (y + sy)), (wrap_id (err + - ady + dx)) by lia.
        exists true, true.
        split; [done|]. split; [done|]. split; [done|].
        split; [done|]. split; [done|]. split; [auto|].
        repeat split; try lia;
          destruct Hsx as [[-> ?]|[-> ?]], Hsy as [[-> ?]|[-> ?]]; lia.
      * exists true, false. rewrite !Z.add_0_r, Z.sub_0_r.
        split; [done|]. split; [done|]. split; [done|].
        split; [done|]. split; [done|]. split; [auto|].
        repeat split; try lia; destruct Hsx as [[-> ?]|[-> ?]]; lia.
    + cbn. replace (2 * err <=? dx) with true by lia.
      destruct (Z.eqb_spec y y1); [done|].
      rewrite (wrap_id (y + sy)), (wrap_id (err + dx)) by lia.
      exists false, true. rewrite !Z.add_0_r, Z.sub_0_r.
      split; [done|]. split; [done|]. split; [done|].
      split; [done|]. split; [done|]. split; [auto|].
      repeat split; try lia; destruct Hsy as [[-> ?]|[-> ?]]; lia.
Qed.

Lemma line_step_arrived x y err :
  line_inv x0 y0 x1 y1 (x, y, err) 0 0 →
  line_step dx (- ady) sx sy x1 y1 (x, y, err) = None.
Proof.
  unfold line_inv. cbn [fst snd]. intros (_ & _ & Hx & Hy & _).
  unfold line_step.
  assert (x = x1 ∧ y = y1) as [-> ->] by lia. by rewrite !Z.eqb_refl.
Qed.

Lemma line_inv_in_box st rx ry :
  line_inv x0 y0 x1 y1 st rx ry → in_box x0 y0 x1 y1 (st.1.1, st.1.2).
Proof.
  unfold line_inv, in_box. cbn [fst snd].
  intros (Hrx & Hry & Hx & Hy & _).
  destruct (Z.ltb_spec x0 x1), (Z.ltb_spec y0 y1); lia.
Qed.

Lemma line_inv_nonneg st rx ry : line_inv x0 y0 x1 y1 st rx ry → 0 ≤ rx ∧ 0 ≤ ry.
Proof. unfold line_inv. lia. Qed.

(** The points of a line stay in the rectangle of its end points and
    move towards the end point without a gap. *)
Lemma line_points_shape n : ∀ st rx ry pts,
  line_inv x0 y0 x1 y1 st rx ry →
  line_points n dx (- ady) sx sy x1 y1 st = Some pts →
  Forall (in_box x0 y0 x1 y1) pts ∧ line_chain sx sy pts ∧
  head pts = Some (st.1.1, st.1.2).
Proof.
  induction n as [|n IH]; intros [[x y] err] rx ry pts Hinv; [done|].
  cbn [line_points fst snd].
  pose proof (line_inv_in_box _ _ _ Hinv) as Hbox. cbn [fst snd] in Hbox.
  pose proof (line_inv_nonneg _ _ _ Hinv) as [Hrx Hry].
  destruct (Z.eq_dec (rx + ry) 0) as [Hz|Hnz].
  - assert (rx = 0 ∧ ry = 0) as [-> ->] by lia.
    rewrite (line_step_arrived _ _ _ Hinv). intros [= <-].
    split; [by apply Forall_singleton|]. done.
  - destruct (line_step_exact x y err rx ry Hinv ltac:(lia))
      as (xs & ys & _ & _ & Hstep & Hxs & Hys & Hany & Hinv').
    rewrite Hstep.
    destruct (line_points n dx (- ady) sx sy x1 y1 _) as [pts'|] eqn:Hpts; [|done].
    intros [= <-].
    destruct (IH _ _ _ _ Hinv' Hpts) as (Hall & Hchain & Hhd).
    split; [by apply Forall_cons|]. split; [|done].
    destruct pts' as [|q pts']; [done|]. cbn [head fst snd] in Hhd.
    injection Hhd as ->. cbn [line_chain]. split; [|done].
    unfold line_move. cbn [fst snd].
    assert (sx ≠ 0 ∧ sy ≠ 0) as [? ?]
      by (subst sx sy; destruct (x0 <? x1), (y0 <? y1); lia).
    destruct xs, ys; rewrite ?Z.add_0_r.
    + split; [by right|]. split; [by right|]. intros [= ? ?]; lia.
    + split; [by right|]. split; [by left|]. intros [= ?]; lia.
    + split; [by left|]. split; [by right|]. intros [= ?]; lia.
    + by destruct Hany.
Qed.

(** When the line is at least as wide as it is high, every iteration
    takes the x step: the [k]-th point is in column [x0 + sx * k]. *)
Lemma line_points_x_major n : ∀ st rx ry pts,
  line_inv x0 y0 x1 y1 st rx ry → ady ≤ dx → - ady ≤ 2 * st.2 →
  line_points n dx (- ady) sx sy x1 y1 st = Some pts →
  Z.of_nat (length pts) = rx + 1 ∧
  ∀ k p, pts !! k = Some p → p.1 = st.1.1 + sx * Z.of_nat k.
Proof.
  induction n as [|n IH]; intros [[x y] err] rx ry pts Hinv Hmaj He; [done|].
  cbn [line_points fst snd] in *.
  pose proof (line_inv_nonneg _ _ _ Hinv) as [Hrx Hry].
  destruct (Z.eq_dec (rx + ry) 0) as [Hz|Hnz].
  - assert (rx = 0 ∧ ry = 0) as [-> ->] by lia.
    rewrite (line_step_arrived _ _ _ Hinv). intros [= <-]. split; [done|].
    intros [|k] p; [|done]. intros [= <-]. cbn. lia.
  - destruct (line_step_exact x y err rx ry Hinv ltac:(lia))
      as (xs & ys & Exs & Eys & Hstep & Hxs & Hys & Hany & Hinv').
    rewrite Hstep.
    destruct (line_points n dx (- ady) sx sy x1 y1 _) as [pts'|] eqn:Hpts; [|done].
    intros [= <-].
    assert (xs = true) as -> by (rewrite Exs; apply Z.geb_le; lia).
    destruct (IH _ _ _ pts' Hinv' Hmaj) as (Hlen & Hk); [|done|].
    { cbn [snd]. destruct ys; [lia|].
      symmetry in Eys. apply Z.leb_gt in Eys. lia. }
    cbn [fst snd] in Hk. split; [cbn [length]; lia|].
    intros [|k] p.
    + intros [= <-]. cbn. lia.
    + intros Hp. cbn in Hp. rewrite (Hk k p Hp). lia.
Qed.

(** When the line is at least as high as it is wide, every iteration
    takes the y step: the [k]-th point is in row [y0 + sy * k]. *)
Lemma line_points_y_major n : ∀ st rx ry pts,
  line_inv x0 y0 x1 y1 st rx ry → dx ≤ ady → 2 * st.2 ≤ dx →
  line_points n dx (- ady) sx sy x1 y1 st = Some pts →
  Z.of_nat (length pts) = ry + 1 ∧
  ∀ k p, pts !! k = Some p → p.2 = st.1.2 + sy * Z.of_nat k.
Proof.
  induction n as [|n IH]; intros [[x y] err] rx ry pts Hinv Hmaj He; [done|].
  cbn [line_points fst snd] in *.
  pose proof (line_inv_nonneg _ _ _ Hinv) as [Hrx Hry].
  destruct (Z.eq_dec (rx + ry) 0) as [Hz|Hnz].
  - assert (rx = 0 ∧ ry = 0) as [-> ->] by lia.
    rewrite (line_step_arrived _ _ _ Hinv). intros [= <-]. split; [done|].
    intros [|k] p; [|done]. intros [= <-]. cbn. lia.
  - destruct (line_step_exact x y err rx ry Hinv ltac:(lia))
      as (xs & ys & Exs & Eys & Hstep & Hxs & Hys & Hany & Hinv').
    rewrite Hstep.
    destruct (line_points n dx (- ady) sx sy x1 y1 _) as [pts'|] eqn:Hpts; [|done].
    intros [= <-].
    assert (ys = true) as -> by (rewrite Eys; apply Z.leb_le; lia).
    destruct (IH _ _ _ pts' Hinv' Hmaj) as (Hlen & Hk); [|done|].
    { cbn [snd]. destruct xs; [lia|].
      symmetry in Exs. rewrite Z.geb_leb in Exs. apply Z.leb_gt in Exs. lia. }
    cbn [fst snd] in Hk. split; [cbn [length]; lia|].
    intros [|k] p.
    + intros [= <-]. cbn. lia.
    + intros Hp. cbn in Hp. rewrite (Hk k p Hp). lia.
Qed.

(** The loop variables at the start of [draw_line]. *)
Lemma draw_line_points_start fuel :
  draw_line_points fuel x0 y0 x1 y1
  = line_points fuel dx (- ady) sx sy x1 y1 (x0, y0, dx - ady) ∧
  line_inv x0 y0 x1 y1 (x0, y0, dx - ady) dx ady.
Proof.
  destruct Hrange as ((Hx0 & Hy0) & (Hx1 & Hy1) & Hdx & Hdy).
  fold dx in Hdx. fold ady in Hdy. split.
  - unfold draw_line_points, std_abs.
    rewrite (wrap_id (x1 - x0)), (wrap_id (y1 - y0)) by (subst dx ady; lia).
    fold dx ady sx sy.
    by rewrite (wrap_id dx), (wrap_id ady), (wrap_id (- ady)), (wrap_id (dx + - ady))
      by (subst dx ady; lia).
  - unfold line_inv. cbn [fst snd]. fold dx ady sx sy. subst dx ady sx sy.
    destruct (Z.ltb_spec x0 x1), (Z.ltb_spec y0 y1); repeat split; lia.
Qed.

End line_geometry.

(** The points of a line without overflow, all properties together. *)
Lemma draw_line_points_geometry x0 y0 x1 y1 :
  line_in_range x0 y0 x1 y1 →
  ∃ pts,
    draw_line_points (S (Z.to_nat (Z.abs (x1 - x0) + Z.abs (y1 - y0)))) x0 y0 x1 y1
    = Some pts ∧
    Forall (in_box x0 y0 x1 y1) pts ∧
    line_chain (if x0 <? x1 then 1 else -1) (if y0 <? y1 then 1 else -1) pts ∧
    Z.of_nat (length pts) = Z.max (Z.abs (x1 - x0)) (Z.abs (y1 - y0)) + 1 ∧
    (Z.abs (y1 - y0) ≤ Z.abs (x1 - x0) →
     ∀ k p, pts !! k = Some p → p.1 = x0 + (if x0 <? x1 then 1 else -1) * Z.of_nat k) ∧
    (Z.abs (x1 - x0) ≤ Z.abs (y1 - y0) →
     ∀ k p, pts !! k = Some p → p.2 = y0 + (if y0 <? y1 then 1 else -1) * Z.of_nat k).
Proof.
  intros Hrange.
  destruct (draw_line_points_reach x0 y0 x1 y1 Hrange) as (pts & Hpts & _).
  exists pts. split; [done|].
  destruct (draw_line_points_start x0 y0 x1 y1 Hrange
              (S (Z.to_nat (Z.abs (x1 - x0) + Z.abs (y1 - y0))))) as [E Hinv].
  rewrite E in Hpts.
  destruct (line_points_shape x0 y0 x1 y1 Hrange _ _ _ _ _ Hinv Hpts)
    as (Hbox & Hchain & _).
  split; [done|]. split; [done|].
  pose proof (λ Hle He, line_points_x_major x0 y0 x1 y1 Hrange _ _ _ _ _ Hinv Hle He Hpts)
    as Hx.
  pose proof (λ Hle He, line_points_y_major x0 y0 x1 y1 Hrange _ _ _ _ _ Hinv Hle He Hpts)
    as Hy.
  cbn [fst snd] in Hx, Hy.
  split; [|split].
  - destruct (Z.le_ge_cases (Z.abs (y1 - y0)) (Z.abs (x1 - x0))) as [Hle|Hle].
    + destruct (Hx Hle) as [Hlen _]; lia.
    + destruct (Hy Hle) as [Hlen _]; lia.
  - intros Hle. destruct (Hx Hle) as [_ Hk]; [lia|done].
  - intros Hle. destruct (Hy Hle) as [_ Hk]; [lia|done].
Qed.


(** X11: a line whose coordinate differences stay below 2^29 is drawn
    inside the rectangle of its end points, each point one step from the
    one before towards the end point along x, along y or along both, and
    it has as many points as the longer side of the rectangle. *)
Theorem line_connected_in_box (img : BMPImage) (x0 y0 x1 y1 : Z) (clr : Pixel) :
  line_in_range x0 y0 x1 y1 →
  ∃ fuel pts,
    draw_line fuel img x0 y0 x1 y1 clr = Some (plot img pts clr) ∧
    Forall (in_box x0 y0 x1 y1) pts ∧
    line_chain (if x0 <? x1 then 1 else -1) (if y0 <? y1 then 1 else -1) pts ∧
    Z.of_nat (length pts) = Z.max (Z.abs (x1 - x0)) (Z.abs (y1 - y0)) + 1.
Proof.
  intros Hr.
  destruct (draw_line_points_geometry x0 y0 x1 y1 Hr) as (pts & Hpts & Hbox & Hch & Hlen & _).
  eexists _, pts. split; [|done]. by apply draw_line_loop_points.
Qed.

Lemma line_connected_in_box_witness :
  ∃ fuel pts,
    draw_line fuel square_2x2_decoded 40 60 160 120 black
    = Some (plot square_2x2_decoded pts black) ∧
    Forall (in_box 40 60 160 120) pts ∧
    line_chain (if 40 <? 160 then 1 else -1) (if 60 <? 120 then 1 else -1) pts ∧
    Z.of_nat (length pts) = Z.max (Z.abs (160 - 40)) (Z.abs (120 - 60)) + 1.
Proof.
  apply (line_connected_in_box square_2x2_decoded 40 60 160 120 black).
  unfold line_in_range. lia.
Defined.





(** ** Drawing twice *)

Lemma store_same arr x y p : load arr x y = Ok p → store arr x y p = Ok arr.
Proof.
  unfold load, store. destruct ((x <? 0) || (y <? 0)); [done|].
  destruct (arr !! Z.to_nat x) as [row|] eqn:Hrow; [|done].
  destruct (row !! Z.to_nat y) as [q|] eqn:Hq; [|done]. intros [= ->].
  case_decide as Hy.
  - by rewrite (list_insert_id _ _ _ Hq), (list_insert_id _ _ _ Hrow).
  - exfalso. apply Hy. by eapply lookup_lt_Some.
Qed.

(** [set_pixel] on a pixel that has the colour changes nothing. *)
Lemma set_pixel_same img x y clr :
  (in_guard img x y → pixel_at img x y = Ok clr) → set_pixel img x y clr = Ok img.
Proof.
  intros H. destruct (in_guard_dec img x y) as [Hg|Hg].
  - rewrite set_pixel_guarded by done. unfold set_pixel_at.
    unfold pixel_at in H. rewrite (store_same _ _ _ _ (H Hg)), bind_Ok.
    by destruct img.
  - by apply set_pixel_unguarded.
Qed.

Lemma plot_same pts img clr :
  (∀ x y, (x, y) ∈ pts → in_guard img x y → pixel_at img x y = Ok clr) →
  plot img pts clr = Ok img.
Proof.
  induction pts as [|[x y] pts IH]; intros H; [done|].
  cbn [plot fst snd]. rewrite set_pixel_same, bind_Ok.
  - apply IH. intros x' y' Hin. apply H. by apply list_elem_of_further.
  - apply H. apply list_elem_of_here.
Qed.

(** X14: an operation of the editor applied a second time, to its own
    result, gives that result again. *)
Theorem edit_twice_same (fuel : nat) (op : edit) (img img' : BMPImage) :
  run_edit fuel op img = Some (Ok img') →
  run_edit fuel op img' = Some (Ok img').
Proof.
  intros H. apply run_edit_Ok in H as (pts & Hpts & Hplot).
  rewrite (run_edit_plot _ _ _ _ Hpts). f_equal. apply plot_same.
  intros x y Hin Hg. apply (plot_paints pts img _ _ Hplot); [done|].
  destruct (plot_frame _ _ _ _ Hplot) as (Hinfo & _).
  by apply (in_guard_info img img').
Qed.

Lemma edit_twice_same_witness :
  run_edit 3 (DrawDiagonalCross 0 0 1 1 black) square_2x2_crossed
  = Some (Ok square_2x2_crossed).
Proof.
  apply (edit_twice_same 3 (DrawDiagonalCross 0 0 1 1 black) square_2x2_decoded).
  reflexivity.
Defined.

(** ** The preview of a black and white image *)

Lemma print_image_rows img :
  shaped (BMPImage.height img) (BMPImage.width img) (m_array_pixels img) →
  BMPImage.print_image img = Ok (preview_chars (m_array_pixels img)).
Proof.
  intros (Hh & Hw & Hlen & Hrows).
  unfold BMPImage.print_image, preview_chars.
  pose (Q := λ (i : Z) (cout : list ascii),
    cout = concat (map (λ row, concat (map pixel_chars row) ++ [BMPImage.endl])
                     (take (Z.to_nat i) (m_array_pixels img)))).
  lazymatch goal with
  | |- for_ ?n ?i ?body ?t = _ =>
      destruct (for_inv Q body n i t) as (cout & -> & Hcout)
  end.
  - unfold Q. change (Z.to_nat 0) with 0%nat. by rewrite take_0.
  - intros i cout Hi ->.
    destruct (lookup_lt_is_Some_2 (m_array_pixels img) (Z.to_nat i)) as [row Hrow]; [lia|].
    specialize (Hrows _ _ Hrow).
    set (done_rows := concat (map _ (take (Z.to_nat i) (m_array_pixels img)))).
    pose (P := λ (j : Z) (cout : list ascii),
      cout = done_rows ++ concat (map pixel_chars (take (Z.to_nat j) row))).
    lazymatch goal with
    | |- context [for_ ?n ?i ?body ?t ≫= _] =>
        destruct (for_inv P body n i t) as (cout1 & -> & Hcout1)
    end.
    + unfold P. change (Z.to_nat 0) with 0%nat. by rewrite take_0, app_nil_r.
    + intros j cout1 Hj ->.
      destruct (lookup_lt_is_Some_2 row (Z.to_nat j)) as [p Hp]; [lia|].
      rewrite (load_lookup (m_array_pixels img) i j row p) by (done || lia).
      rewrite bind_Ok.
      exists (done_rows ++ concat (map pixel_chars (take (Z.to_nat j) row))
              ++ pixel_chars p).
      split.
      * unfold pixel_chars.
        destruct (Byte.eqb (r p) x00 && Byte.eqb (g p) x00 && Byte.eqb (b p) x00);
          [by rewrite <- (assoc_L (++))|].
        destruct (Byte.eqb (r p) xff && Byte.eqb (g p) xff && Byte.eqb (b p) xff);
          [by rewrite <- (assoc_L (++))|].
        by rewrite app_nil_r.
      * unfold P. replace (Z.to_nat (j + 1)) with (S (Z.to_nat j)) by lia.
        rewrite (take_S_r _ _ _ Hp), map_app, concat_app. cbn [map concat].
        by rewrite app_nil_r.
    + rewrite bind_Ok. eexists. split; [done|]. unfold P in Hcout1.
      replace (Z.to_nat (0 + Z.of_nat (Z.to_nat (BMPImage.width img))))
        with (length row) in Hcout1 by lia.
      rewrite firstn_all in Hcout1. subst cout1. unfold Q, done_rows.
      replace (Z.to_nat (i + 1)) with (S (Z.to_nat i)) by lia.
      rewrite (take_S_r _ _ _ Hrow), map_app, concat_app. cbn [map concat].
      by rewrite app_nil_r, (assoc_L (++)).
  - unfold Q in Hcout.
    replace (Z.to_nat (0 + Z.of_nat (Z.to_nat (BMPImage.height img))))
      with (length (m_array_pixels img)) in Hcout by lia.
    rewrite firstn_all in Hcout. by subst cout.
Qed.

Lemma pixel_chars_black_or_white p :
  black_or_white p → pixel_chars p = [claimed_char p].
Proof.
  unfold pixel_chars, claimed_char.
  by intros [(-> & -> & ->)|(-> & -> & ->)].
Qed.

Lemma preview_chars_black_or_white arr :
  Forall (Forall black_or_white) arr →
  preview_chars arr
  = concat (map (λ row, map claimed_char row ++ [BMPImage.endl]) arr).
Proof.
  unfold preview_chars. intros Hbw. f_equal.
  induction Hbw as [|row arr Hrow _ IH]; [done|].
  cbn [map]. f_equal; [|done]. f_equal.
  induction Hrow as [|p row Hp _ IHrow]; [done|].
  cbn [map concat]. by rewrite (pixel_chars_black_or_white p Hp), IHrow.
Qed.

(** X15: on an image all of whose pixels are black or white, the preview
    is the grid of the specification: one line per row of the array, each
    of exactly [width] characters, '@' for black and '*' for white, and a
    newline. *)
Theorem preview_black_and_white (img : BMPImage) :
  shaped (BMPImage.height img) (BMPImage.width img) (m_array_pixels img) →
  Forall (Forall black_or_white) (m_array_pixels img) →
  BMPImage.print_image img = Ok (claimed_preview img) ∧
  Z.of_nat (length (claimed_preview img))
  = BMPImage.height img * (BMPImage.width img + 1).
Proof.
  intros Hsh Hbw. rewrite (print_image_rows img Hsh).
  destruct Hsh as (Hh & Hw & Hlen & Hrows).
  rewrite (preview_chars_black_or_white _ Hbw).
  unfold claimed_preview. split; [done|].
  rewrite (length_concat_chunk _ (S (Z.to_nat (BMPImage.width img)))).
  - rewrite length_map. nia.
  - intros k l. rewrite list_lookup_fmap.
    destruct (m_array_pixels img !! k) as [row|] eqn:Hrow; [|done].
    intros [= <-]. rewrite length_app, length_map. cbn [length].
    specialize (Hrows _ _ Hrow). lia.
Qed.

Lemma preview_black_and_white_witness :
  BMPImage.print_image square_2x2_crossed = Ok (claimed_preview square_2x2_crossed) ∧
  Z.of_nat (length (claimed_preview square_2x2_crossed))
  = BMPImage.height square_2x2_crossed * (BMPImage.width square_2x2_crossed + 1).
Proof.
  apply (preview_black_and_white square_2x2_crossed).
  - repeat split; try done.
    intros [|[|i]] row; cbn; try done; by intros [= <-].
  - repeat constructor.
Defined.

(** ** The program *)

Lemma line_points_more_fuel dx dy sx sy x1 y1 n : ∀ m st pts,
  line_points n dx dy sx sy x1 y1 st = Some pts → (n ≤ m)%nat →
  line_points m dx dy sx sy x1 y1 st = Some pts.
Proof.
  induction n as [|n IH]; intros m st pts; [done|].
  intros H Hm. destruct m as [|m]; [lia|]. cbn [line_points] in *.
  destruct (line_step dx dy sx sy x1 y1 st) as [st'|]; [|done].
  destruct (line_points n dx dy sx sy x1 y1 st') as [pts'|] eqn:E; [|done].
  by rewrite (IH m st' _ E) by lia.
Qed.

Lemma draw_line_points_more_fuel n m x0 y0 x1 y1 pts :
  draw_line_points n x0 y0 x1 y1 = Some pts → (n ≤ m)%nat →
  draw_line_points m x0 y0 x1 y1 = Some pts.
Proof. apply line_points_more_fuel. Qed.

(** The points of the cross that [main] draws. *)
Lemma main_cross_points fuel :
  (181 ≤ fuel)%nat →
  ∃ pts,
    edit_points fuel (DrawDiagonalCross 40 60 160 120 black) = Some pts ∧
    Forall (in_box 40 60 160 120) pts.
Proof.
  intros Hf.
  destruct (draw_line_points_geometry 40 60 160 120) as (pts1 & H1 & Hb1 & _);
    [unfold line_in_range; lia|].
  destruct (draw_line_points_geometry 40 120 160 60) as (pts2 & H2 & Hb2 & _);
    [unfold line_in_range; lia|].
  change (S (Z.to_nat _)) with 181%nat in H1, H2.
  exists (pts1 ++ pts2). split.
  - cbn [edit_points].
    by rewrite (draw_line_points_more_fuel _ fuel _ _ _ _ _ H1 Hf),
      (draw_line_points_more_fuel _ fuel _ _ _ _ _ H2 Hf).
  - apply Forall_app. split; [done|].
    eapply Forall_impl; [exact Hb2|]. unfold in_box. intros p. lia.
Qed.

Lemma main_unfold fuel uninit f img img' :
  read_image uninit f = Ok img →
  draw_diagonal_cross fuel img 40 60 160 120 black = Some (Ok img') →
  main fuel uninit f
  = Some (chars ← BMPImage.print_image img';
          out_file ← write_image img';
          Ok (prompt_in ++ chars ++ prompt_out, out_file)).
Proof.
  intros H1 H2. unfold main. rewrite H1.
  change (mkPixel x00 x00 x00 x00) with black. by rewrite H2.
Qed.

(** X16: on a valid file of a square image, a run of [main] is defined and
    returns: [std::cout] receives the first prompt, the preview of the
    image with the cross, and the second prompt; the file written has the
    header bytes and the length of a file of the image read. *)
Theorem main_square_image (fuel : nat) (uninit : Pixel) (f : list BYTE) :
  valid_bmp f = true → biWidth f = rows f → (181 ≤ fuel)%nat →
  ∃ img img',
    read_image uninit f = Ok img ∧
    draw_diagonal_cross fuel img 40 60 160 120 black = Some (Ok img') ∧
    main fuel uninit f
    = Some (Ok (prompt_in ++ preview_chars (m_array_pixels img') ++ prompt_out,
                file_bytes img')) ∧
    Z.of_nat (length (file_bytes img'))
    = bfOffBits f + rows f * row_pitch (biWidth f) (biBitCount f) ∧
    take (Z.to_nat (bfOffBits f)) (file_bytes img') = take (Z.to_nat (bfOffBits f)) f.
Proof.
  intros Hv Hsq Hf.
  destruct (decode_encode uninit f Hv) as (img & Hrd & Hinfo & Hhd & Hsh & _).
  apply valid_bmp_unfold in Hv as (Hlen & Hsig & Hoff & Hw & Hh & Hbc & Hfit).
  pose proof (wrap_range (field f 22 4)) as Hhr. fold (biHeight f) in Hhr.
  pose proof (wrap_range (field f 18 4)) as Hwr. fold (biWidth f) in Hwr.
  pose proof (row_pitch_nonneg (biWidth f) (biBitCount f) Hw) as Hpitch.
  destruct (main_cross_points fuel Hf) as (pts & Hpts & _).
  assert (BMPImage.height img = rows f ∧ BMPImage.width img = biWidth f) as [Eh Ew]
    by (unfold BMPImage.height, BMPImage.width; by rewrite Hinfo).
  destruct (plot_in_bounds pts img black) as (img' & Hplot & Hinfo' & Hhd' & Hsh').
  { by rewrite Eh, Ew. }
  { intros x y _ [Hx Hy]. lia. }
  assert (BMPImage.height img' = rows f ∧ BMPImage.width img' = biWidth f) as [Eh' Ew']
    by (unfold BMPImage.height, BMPImage.width; by rewrite Hinfo', Hinfo).
  rewrite Eh, Ew, <- Eh', <- Ew' in Hsh'.
  assert (draw_diagonal_cross fuel img 40 60 160 120 black = Some (Ok img')) as Hcross.
  { rewrite <- Hplot. apply (run_edit_plot fuel (DrawDiagonalCross 40 60 160 120 black)).
    done. }
  assert ((Z.to_nat (size (m_hdrs img')) ≤ length (hdrs (m_hdrs img')))%nat) as Hhdl.
  { rewrite Hhd', Hhd. cbn [size hdrs]. rewrite length_take. unfold rows in *. nia. }
  exists img, img'. split; [done|]. split; [done|].
  split; [|split].
  - rewrite (main_unfold _ _ _ _ _ Hrd Hcross), (print_image_rows img' Hsh'), bind_Ok.
    rewrite write_image_ok; [done|done| | |done].
    + rewrite Eh'. unfold rows. lia.
    + rewrite Ew'. lia.
  - rewrite (length_file_bytes img' Hsh'); [|rewrite Hhd', Hhd; cbn [size]; lia|done].
    rewrite Eh', Ew', Hhd', Hhd, Hinfo', Hinfo. done.
  - pose proof (take_file_bytes img' Hhdl) as Ht.
    rewrite Hhd', Hhd in Ht. cbn [size hdrs] in Ht.
    rewrite Ht, take_take. f_equal. lia.
Qed.

Lemma main_square_image_witness :
  ∃ img img',
    read_image black square_2x2 = Ok img ∧
    draw_diagonal_cross 181 img 40 60 160 120 black = Some (Ok img') ∧
    main 181 black square_2x2
    = Some (Ok (prompt_in ++ preview_chars (m_array_pixels img') ++ prompt_out,
                file_bytes img')) ∧
    Z.of_nat (length (file_bytes img'))
    = bfOffBits square_2x2
      + rows square_2x2 * row_pitch (biWidth square_2x2) (biBitCount square_2x2) ∧
    take (Z.to_nat (bfOffBits square_2x2)) (file_bytes img')
    = take (Z.to_nat (bfOffBits square_2x2)) square_2x2.
Proof.
  apply (main_square_image 181 black square_2x2); [reflexivity|reflexivity|lia].
Defined.

(** X17: on a valid file stored bottom-up, with zero padding bytes and
    nothing after the last row, whose image is at most 40 pixels wide or
    at most 60 pixels high, the cross of [main] lies outside the image:
    the file written is the file read, byte for byte, and the preview is
    that of the image read. *)
Theorem main_small_image_unchanged (fuel : nat) (uninit : Pixel) (f : list BYTE) :
  valid_bmp f = true → is_top_down f = false → canonical_bmp f →
  biWidth f ≤ 40 ∨ rows f ≤ 60 → (181 ≤ fuel)%nat →
  ∃ img,
    read_image uninit f = Ok img ∧
    main fuel uninit f
    = Some (Ok (prompt_in ++ preview_chars (m_array_pixels img) ++ prompt_out, f)).
Proof.
  intros Hv Hbu Hcan Hsmall Hf.
  destruct (decode_encode_identity uninit f Hv Hbu Hcan) as (img & Hrd & Hwr).
  destruct (decode_encode uninit f Hv) as (img0 & Hrd0 & Hinfo & _ & Hsh & _).
  assert (img0 = img) as -> by congruence.
  destruct (main_cross_points fuel Hf) as (pts & Hpts & Hbox).
  assert (BMPImage.height img = rows f ∧ BMPImage.width img = biWidth f) as [Eh Ew]
    by (unfold BMPImage.height, BMPImage.width; by rewrite Hinfo).
  assert (draw_diagonal_cross fuel img 40 60 160 120 black = Some (Ok img)) as Hcross.
  { rewrite <- (plot_same pts img black).
    - by apply (run_edit_plot fuel (DrawDiagonalCross 40 60 160 120 black)).
    - intros x y Hin [Hx Hy]. exfalso.
      pose proof (proj1 (Forall_forall _ _) Hbox _ Hin) as [Hbx Hby].
      cbn [fst snd] in Hbx, Hby. lia. }
  exists img. split; [done|].
  rewrite (main_unfold _ _ _ _ _ Hrd Hcross), print_image_rows, bind_Ok, Hwr; [done|].
  by rewrite Eh, Ew.
Qed.

Lemma main_small_image_unchanged_witness :
  ∃ img,
    read_image black bottom_up_1x2 = Ok img ∧
    main 181 black bottom_up_1x2
    = Some (Ok (prompt_in ++ preview_chars (m_array_pixels img) ++ prompt_out,
                bottom_up_1x2)).
Proof.
  apply (main_small_image_unchanged 181 black bottom_up_1x2);
    [reflexivity|reflexivity| |left; vm_compute; discriminate|lia].
  split; [reflexivity|]. intros i k Hi Hk.
  change (rows bottom_up_1x2) with 2 in Hi.
  change (BMPImageReader.padding (biWidth bottom_up_1x2)) with 1 in Hk.
  assert (k = 0) as -> by lia.
  assert (i = 0 ∨ i = 1) as [-> | ->] by lia; reflexivity.
Defined.

(** X18: on a valid file whose image is more than 40 and at most 60 pixels
    wide and more than 60 pixels high, the first [set_pixel] of the cross,
    at (40, 60), passes the test and indexes row 40 of the array at column
    60, past the end of the row: the behaviour of [main] is undefined. *)
Theorem main_portrait_undefined (fuel : nat) (uninit : Pixel) (f : list BYTE) :
  valid_bmp f = true → 40 < biWidth f ≤ 60 → 60 < rows f → fuel ≠ 0%nat →
  main fuel uninit f = Some Undefined.
Proof.
  intros Hv Hw Hh Hfuel.
  destruct (read_image_ok uninit f Hv) as (arr & Hrd & (_ & _ & Hlen & Hrows) & _).
  unfold main. rewrite Hrd. unfold draw_diagonal_cross, draw_line.
  destruct fuel as [|fuel]; [done|]. cbn [draw_line_loop fst snd].
  rewrite set_pixel_guarded by (unfold in_guard; cbn; lia).
  unfold set_pixel_at, store. cbn [m_array_pixels orb Z.ltb Z.compare].
  destruct (lookup_lt_is_Some_2 arr (Z.to_nat 40)) as [row Hrow]; [lia|].
  rewrite Hrow. specialize (Hrows _ _ Hrow).
  case_decide; [lia|done].
Qed.

Lemma main_portrait_undefined_witness : main 1 black portrait_50x61 = Some Undefined.
Proof.
  assert (biWidth portrait_50x61 = 50) as Ew by (vm_compute; reflexivity).
  assert (rows portrait_50x61 = 61) as Eh by (vm_compute; reflexivity).
  apply (main_portrait_undefined 1 black portrait_50x61);
    [vm_compute; reflexivity|rewrite Ew; lia|rewrite Eh; lia|discriminate].
Defined.

(** ** Uninitialised memory *)

Lemma same_channels_Forall2 bc h w arr1 arr2 :
  shaped h w arr1 → shaped h w arr2 →
  (∀ i j, 0 ≤ i < h → 0 ≤ j < w →
     ∃ p1 p2, load arr1 i j = Ok p1 ∧ load arr2 i j = Ok p2 ∧
              channels bc p1 = channels bc p2) →
  Forall2 (Forall2 (λ p1 p2, channels bc p1 = channels bc p2)) arr1 arr2.
Proof.
  intros (_ & _ & Hl1 & Hr1) (_ & _ & Hl2 & Hr2) H.
  apply Forall2_same_length_lookup_2; [lia|]. intros i row1 row2 H1 H2.
  pose proof (Hr1 _ _ H1). pose proof (Hr2 _ _ H2).
  pose proof (lookup_lt_Some _ _ _ H1).
  apply Forall2_same_length_lookup_2; [lia|]. intros j p1 p2 Hp1 Hp2.
  pose proof (lookup_lt_Some _ _ _ Hp1).
  destruct (H (Z.of_nat i) (Z.of_nat j)) as (q1 & q2 & L1 & L2 & E); [lia..|].
  rewrite (load_lookup arr1 _ _ row1 p1) in L1 by (rewrite ?Nat2Z.id; done || lia).
  rewrite (load_lookup arr2 _ _ row2 p2) in L2 by (rewrite ?Nat2Z.id; done || lia).
  congruence.
Qed.

Lemma pixel_chars_channels bc p1 p2 :
  channels bc p1 = channels bc p2 → pixel_chars p1 = pixel_chars p2.
Proof.
  unfold channels, pixel_chars.
  destruct (bc =? 32); intros E; injection E as Eb Eg Er; by rewrite Eb, Eg, Er.
Qed.

Lemma row_bytes_same_channels bc w row1 row2 :
  Forall2 (λ p1 p2, channels bc p1 = channels bc p2) row1 row2 →
  row_bytes bc w row1 = row_bytes bc w row2 ∧
  concat (map pixel_chars row1) = concat (map pixel_chars row2).
Proof.
  unfold row_bytes. intros H.
  induction H as [|p1 p2 row1 row2 Hp _ [IH1 IH2]]; [done|].
  cbn [map concat]. apply app_inv_tail in IH1.
  by rewrite Hp, IH1, IH2, (pixel_chars_channels bc p1 p2 Hp).
Qed.

Lemma rows_same_channels bc w arr1 arr2 :
  Forall2 (Forall2 (λ p1 p2, channels bc p1 = channels bc p2)) arr1 arr2 →
  map (row_bytes bc w) arr1 = map (row_bytes bc w) arr2 ∧
  preview_chars arr1 = preview_chars arr2.
Proof.
  unfold preview_chars. intros H.
  induction H as [|row1 row2 arr1 arr2 Hrow _ [IH1 IH2]]; [done|].
  destruct (row_bytes_same_channels bc w _ _ Hrow) as [E1 E2].
  cbn [map concat]. by rewrite E1, E2, IH1, IH2.
Qed.

(** X19: the pixels that [new Pixel[m_width]] allocates and the local
    [Pixel pixel] of the reader are not initialised, and at 24 bits per
    pixel [pixel.a] is never assigned; neither the file written nor the
    preview depends on the values found there. *)
Theorem uninitialised_memory_not_observed (u1 u2 : Pixel) (f : list BYTE) :
  valid_bmp f = true →
  ∃ img1 img2 out chars,
    read_image u1 f = Ok img1 ∧ read_image u2 f = Ok img2 ∧
    write_image img1 = Ok out ∧ write_image img2 = Ok out ∧
    BMPImage.print_image img1 = Ok chars ∧ BMPImage.print_image img2 = Ok chars.
Proof.
  intros Hv.
  destruct (decode_encode u1 f Hv) as (img1 & Hrd1 & Hi1 & Hh1 & Hs1 & Hp1 & Hw1 & _).
  destruct (decode_encode u2 f Hv) as (img2 & Hrd2 & Hi2 & Hh2 & Hs2 & Hp2 & Hw2 & _).
  exists img1, img2, (file_bytes img1), (preview_chars (m_array_pixels img1)).
  assert (Forall2 (Forall2 (λ p1 p2, channels (biBitCount f) p1 = channels (biBitCount f) p2))
            (m_array_pixels img1) (m_array_pixels img2)) as Hsame.
  { apply (same_channels_Forall2 _ _ _ _ _ Hs1 Hs2). intros i j Hi Hj.
    assert (0 ≤ fixed_row (is_top_down f) (rows f) i < rows f) as Hi'
      by (unfold fixed_row; destruct (is_top_down f); lia).
    destruct (Hp1 _ j Hi' Hj) as (p1 & L1 & E1).
    destruct (Hp2 _ j Hi' Hj) as (p2 & L2 & E2).
    rewrite fixed_row_involutive in L1, L2 by done.
    exists p1, p2. split; [done|]. split; [done|]. congruence. }
  destruct (rows_same_channels (biBitCount f) (biWidth f) _ _ Hsame) as [Erows Eprev].
  assert (file_bytes img2 = file_bytes img1) as Efile.
  { unfold file_bytes, BMPImage.width. rewrite Hh1, Hh2, Hi1, Hi2.
    cbn [width bit_count size hdrs]. by rewrite Erows. }
  split; [done|]. split; [done|]. split; [done|].
  split; [by rewrite Hw2, Efile|].
  split.
  - apply print_image_rows. unfold BMPImage.height, BMPImage.width. by rewrite Hi1.
  - rewrite Eprev. apply print_image_rows.
    unfold BMPImage.height, BMPImage.width. by rewrite Hi2.
Qed.

Lemma uninitialised_memory_not_observed_witness :
  ∃ img1 img2 out chars,
    read_image black bottom_up_1x2 = Ok img1 ∧
    read_image (mkPixel xff xff xff xff) bottom_up_1x2 = Ok img2 ∧
    write_image img1 = Ok out ∧ write_image img2 = Ok out ∧
    BMPImage.print_image img1 = Ok chars ∧ BMPImage.print_image img2 = Ok chars.
Proof.
  apply (uninitialised_memory_not_observed black (mkPixel xff xff xff xff) bottom_up_1x2).
  reflexivity.
Defined.
